(** * Dashboard.jsx: normalisation and aggregation of spreadsheet rows

    A shallow embedding of the data pipeline of the [Dashboard] component
    ([parseValues], [parseNumber], [parsePercent], [normalizeYesNo],
    [chartData], [totals] and the in-render "Margin Expansion (Top 5)" list),
    together with the part of the JavaScript run time those functions use.

    - JavaScript numbers are IEEE 754 binary64 values: [spec_float] of the
      standard library at precision 53 and maximal exponent 1024, with the
      library's round-to-nearest-even arithmetic.
    - JavaScript strings are sequences of UTF-16 code units ([list N]).
    - A plain object used as a dictionary is modelled by its own
      properties: a [gmap] from strings to values for a row, an association
      list in the order of [Object.keys] for the tally of the sectors.  The
      objects are made by [{}] and inherit from [Object.prototype]: writing
      the key [__proto__] goes through the inherited setter, and the read
      [sectors[k]] of a key that is not there finds the inherited property
      of that name, if there is one.  The columns the component reads from
      a row name no inherited property.
    - An array is a [list]; [Array.prototype.sort], which reorders the array
      it is called on, returns the new contents of that array. *)

From Stdlib Require Import ZArith NArith List Lia Bool String Ascii Permutation Sorted.
From Stdlib Require Import Floats.SpecFloat.
From stdpp Require Import gmap list.

Open Scope Z_scope.

(** ** The JavaScript run time used by the component *)

Module JS.

(** *** Numbers *)

Definition prec : Z := 53.
Definition emax : Z := 1024.

Abbreviation number := spec_float.

Definition NaN : number := S754_nan.
Definition zero : number := S754_zero false.
Definition Infinity : number := S754_infinity false.

Definition add : number -> number -> number := SFadd prec emax.
Definition sub : number -> number -> number := SFsub prec emax.
Definition mul : number -> number -> number := SFmul prec emax.
Definition div : number -> number -> number := SFdiv prec emax.

(** [num m e] is the double nearest to [m * 2^e]; [of_Z] and [of_nat] are
    the doubles nearest to an integer (exact below [2^53]). *)
Definition num (m e : Z) : number := binary_normalize prec emax m e false.
Definition of_Z (z : Z) : number := num z 0.
Definition of_nat (n : nat) : number := of_Z (Z.of_nat n).

Definition isNaN (x : number) : bool :=
  match x with S754_nan => true | _ => false end.

Definition is_zero (x : number) : bool :=
  match x with S754_zero _ => true | _ => false end.

(** [x > 0] and [x < 0] for the result of a comparator. *)
Definition is_positive (x : number) : bool :=
  match x with
  | S754_finite false _ _ | S754_infinity false => true
  | _ => false
  end.

Definition is_negative (x : number) : bool :=
  match x with
  | S754_finite true _ _ | S754_infinity true => true
  | _ => false
  end.

(** The double nearest to [(-1)^s * m * 10^e], for [0 <= m]: the value of a
    decimal literal.  A negative power of ten is divided out exactly, the
    position of the remainder deciding the rounding. *)
Definition of_decimal (s : bool) (m e : Z) : number :=
  match m with
  | Z0 => S754_zero s
  | Zpos p =>
      match e with
      | Zneg _ =>
          let '(q, e', l) := SFdiv_core_binary prec emax (Zpos p) 0 (10 ^ (- e)) 0 in
          binary_round_aux prec emax s q e' l
      | _ => binary_round prec emax s (Z.to_pos (Zpos p * 10 ^ e)) 0
      end
  | Zneg _ => S754_nan
  end.

(** *** Strings *)

Definition jsstring := list N.

(** An ASCII literal as a JavaScript string. *)
Definition js (s : string) : jsstring :=
  map N_of_ascii (list_ascii_of_string s).

(** WhiteSpace and LineTerminator code units: what [trim], the regular
    expression class [\s] and [parseFloat] skip. *)
Definition is_space (c : N) : bool :=
  ((9 <=? c) && (c <=? 13) || (c =? 32) || (c =? 160) || (c =? 5760)
   || (8192 <=? c) && (c <=? 8202) || (c =? 8232) || (c =? 8233)
   || (c =? 8239) || (c =? 8287) || (c =? 12288) || (c =? 65279))%N.

Definition is_digit (c : N) : bool := ((48 <=? c) && (c <=? 57))%N.

Fixpoint trimStart (s : jsstring) : jsstring :=
  match s with
  | c :: r => if is_space c then trimStart r else s
  | [] => []
  end.

Definition trimEnd (s : jsstring) : jsstring := rev (trimStart (rev s)).

Definition trim (s : jsstring) : jsstring := trimEnd (trimStart s).

(** [span p s] splits [s] after its longest prefix of code units in [p]. *)
Fixpoint span (p : N -> bool) (s : jsstring) : jsstring * jsstring :=
  match s with
  | c :: r => if p c then let '(a, b) := span p r in (c :: a, b) else ([], s)
  | [] => ([], [])
  end.

Fixpoint starts_with (p s : jsstring) : bool :=
  match p, s with
  | [], _ => true
  | a :: p', b :: s' => (a =? b)%N && starts_with p' s'
  | _ :: _, [] => false
  end.

(** [s.includes(x)] *)
Fixpoint includes (s x : jsstring) : bool :=
  starts_with x s || match s with [] => false | _ :: r => includes r x end.

(** [s.replace(c, '')] for a one-character pattern string: only the first
    occurrence goes. *)
Fixpoint remove_first (c : N) (s : jsstring) : jsstring :=
  match s with
  | [] => []
  | d :: r => if (d =? c)%N then r else d :: remove_first c r
  end.

(** A text of ASCII code units. *)
Definition ascii_text (s : jsstring) : bool :=
  forallb (fun c => (c <? 128)%N) s.

(** Case mapping, on the ASCII letters: exact on an [ascii_text].  The
    Unicode tables are not part of the model, other code units are left
    as they are, and a statement about the case mapping of an arbitrary
    text assumes [ascii_text]. *)
Definition lower_unit (c : N) : N :=
  if ((65 <=? c) && (c <=? 90))%N then (c + 32)%N else c.
Definition upper_unit (c : N) : N :=
  if ((97 <=? c) && (c <=? 122))%N then (c - 32)%N else c.

Definition toLowerCase (s : jsstring) : jsstring := map lower_unit s.
Definition toUpperCase (s : jsstring) : jsstring := map upper_unit s.

(** [s.charAt(0)] and [s.slice(1)] *)
Definition charAt0 (s : jsstring) : jsstring :=
  match s with [] => [] | c :: _ => [c] end.
Definition slice1 (s : jsstring) : jsstring :=
  match s with [] => [] | _ :: r => r end.

(** *** parseFloat *)

Definition digits_value (ds : jsstring) : Z :=
  fold_left (fun a d => 10 * a + (Z.of_N d - 48)) ds 0.

Definition read_sign (s : jsstring) : bool * jsstring :=
  match s with
  | 45%N :: r => (true, r)
  | 43%N :: r => (false, r)
  | _ => (false, s)
  end.

(** The exponent part [e±ddd] when it is complete, else nothing. *)
Definition read_exponent (s : jsstring) : Z :=
  match s with
  | c :: r =>
      if ((c =? 101) || (c =? 69))%N then
        let '(neg, r1) := read_sign r in
        let '(ds, _) := span is_digit r1 in
        match ds with
        | [] => 0
        | _ => if neg then - digits_value ds else digits_value ds
        end
      else 0
  | [] => 0
  end.

(** [parseFloat(s)]: leading white space is skipped, the longest prefix
    that is a StrDecimalLiteral is read and what follows it is ignored;
    no such prefix gives [NaN]. *)
Definition parseFloat (input : jsstring) : number :=
  let '(neg, s1) := read_sign (trimStart input) in
  if starts_with (js "Infinity") s1 then S754_infinity neg
  else
    let '(ip, s2) := span is_digit s1 in
    let '(fp, s3) :=
      match s2 with
      | 46%N :: r => span is_digit r
      | _ => ([], s2)
      end in
    match ip ++ fp with
    | [] => NaN
    | ds => of_decimal neg (digits_value ds) (read_exponent s3 - Z.of_nat (length fp))
    end.

(** *** Number to string

    [Number::toString]: the shortest decimal digit string [d] (of [k]
    digits) and the exponent [n] with [x] the double nearest to
    [d * 10^(n-k)], the closest such [d] when there are several. *)

Fixpoint digits10_aux (fuel : nat) (z : Z) (acc : list N) : list N :=
  match fuel with
  | O => acc
  | S f =>
      let acc' := (48 + Z.to_N (z mod 10))%N :: acc in
      if z <? 10 then acc' else digits10_aux f (z / 10) acc'
  end.

(** Decimal digits of a non-negative integer. *)
Definition digits10 (z : Z) : jsstring :=
  digits10_aux (S (Z.to_nat (Z.log2 z))) z [].

(** The exact value of a positive finite double as a fraction. *)
Definition fraction_of (m : positive) (e : Z) : Z * Z :=
  match e with
  | Zneg _ => (Zpos m, 2 ^ (- e))
  | _ => (Zpos m * 2 ^ e, 1)
  end.

(** [n] with [10^(n-1) <= a/b < 10^n]. *)
Definition decimal_exponent (a b : Z) : Z :=
  let K := Z.log2 b + 1 in
  Z.of_nat (length (digits10 (a * 10 ^ K / b))) - K.

(** The [k]-digit decimals next to [a/b] (which lies in the decade
    [10^(n-1) .. 10^n]) that read back as [x]: the digits and the exponent;
    rounding up to [10^k] moves to the next decade. *)
Definition shortest_candidate (x : number) (a b n : Z) (k : Z) : option (Z * Z) :=
  let p := n - k in
  let '(A, B) := if 0 <=? p then (a, b * 10 ^ p) else (a * 10 ^ (- p), b) in
  let lo := A / B in
  let hi := lo + 1 in
  let ok s :=
    match of_decimal false s p, x with
    | S754_finite _ m1 e1, S754_finite _ m2 e2 => (m1 =? m2)%positive && (e1 =? e2)
    | _, _ => false
    end in
  let up := if hi =? 10 ^ k then (10 ^ (k - 1), n + 1) else (hi, n) in
  match ok lo, ok hi with
  | true, false => Some (lo, n)
  | false, true => Some up
  | false, false => None
  | true, true =>
      let dlo := A - lo * B in
      let dhi := hi * B - A in
      if dlo <? dhi then Some (lo, n)
      else if dhi <? dlo then Some up
      else if Z.even lo then Some (lo, n) else Some up
  end.

Fixpoint shortest_digits (fuel : nat) (x : number) (a b n k : Z) : Z * Z :=
  match fuel with
  | O => (a * 10 ^ (Z.max 0 (k - n)) / (b * 10 ^ (Z.max 0 (n - k))), n)
  | S f =>
      match shortest_candidate x a b n k with
      | Some r => r
      | None => shortest_digits f x a b n (k + 1)
      end
  end.

Definition zeros (n : Z) : jsstring := repeat 48%N (Z.to_nat n).

Definition format_digits (ds : jsstring) (n : Z) : jsstring :=
  let k := Z.of_nat (length ds) in
  if (k <=? n) && (n <=? 21) then ds ++ zeros (n - k)
  else if (0 <? n) && (n <=? 21) then
    take (Z.to_nat n) ds ++ js "." ++ drop (Z.to_nat n) ds
  else if (-6 <? n) && (n <=? 0) then js "0." ++ zeros (- n) ++ ds
  else
    let e := n - 1 in
    let ex := (if e <? 0 then js "-" else js "+") ++ digits10 (Z.abs e) in
    match ds with
    | [d] => [d] ++ js "e" ++ ex
    | _ => take 1 ds ++ js "." ++ drop 1 ds ++ js "e" ++ ex
    end.

Definition NumberToString (x : number) : jsstring :=
  match x with
  | S754_nan => js "NaN"
  | S754_zero _ => js "0"
  | S754_infinity s => (if s then js "-" else []) ++ js "Infinity"
  | S754_finite s m e =>
      let '(a, b) := fraction_of m e in
      let '(d, n) := shortest_digits 17 x a b (decimal_exponent a b) 1 in
      (if s then js "-" else []) ++ format_digits (digits10 d) n
  end.

(** *** Values *)

(** The primitive values a cell of the sheet can hold, and [undefined] for
    a cell or a property that is not there. *)
Inductive value :=
  | VUndefined
  | VNull
  | VBool (b : bool)
  | VNum (x : number)
  | VStr (s : jsstring).

(** [String(v)] *)
Definition ToString (v : value) : jsstring :=
  match v with
  | VUndefined => js "undefined"
  | VNull => js "null"
  | VBool true => js "true"
  | VBool false => js "false"
  | VNum x => NumberToString x
  | VStr s => s
  end.

(** Truthiness: what [!v], [a || b] and [c ? a : b] test. *)
Definition ToBoolean (v : value) : bool :=
  match v with
  | VUndefined | VNull => false
  | VBool b => b
  | VNum x => negb (is_zero x || isNaN x)
  | VStr s => match s with [] => false | _ => true end
  end.

(** [a || b] *)
Definition or_else (a b : value) : value := if ToBoolean a then a else b.

(** [x || 0] on numbers *)
Definition or_zero (x : number) : number :=
  if is_zero x || isNaN x then zero else x.

End JS.

Import JS.

(** ** The component's data pipeline *)

Module Dashboard.

(** [r[k]] on a row object, for a key [k] that names no property of
    [Object.prototype] (as the keys the component reads): [undefined] when
    the property is not there. *)
Definition get (r : gmap jsstring value) (k : jsstring) : value :=
  default VUndefined (r !! k).

(** A cell of a row of the grid, the empty string standing in for a cell
    that is [undefined] (the row is too short). *)
Definition cell (r : list value) (i : nat) : value :=
  match r !! i with
  | Some VUndefined | None => VStr []
  | Some v => v
  end.

Fixpoint str_eqb (a b : jsstring) : bool :=
  match a, b with
  | [], [] => true
  | x :: a', y :: b' => (x =? y)%N && str_eqb a' b'
  | _, _ => false
  end.

(** The key whose assignment on an object made by [{}] runs the setter of
    [Object.prototype]. *)
Definition PROTO : jsstring := js "__proto__".

Definition is_null (v : value) : bool :=
  match v with VNull => true | _ => false end.

(** The loop [for (let i=0;i<headers.length;i++) obj[headers[i]] = ...],
    from index [i] on, [hs] being the headers still to come; [obj] holds
    the own properties, and [inherits] says that the object still has
    [Object.prototype] as its prototype.  While it has, [obj["__proto__"] =
    v] runs the setter of the prototype: [null] takes the prototype away,
    any other cell (a primitive) is ignored, and no own property is made.
    Without the prototype [__proto__] is a key like any other. *)
Fixpoint assign_cells (hs : list jsstring) (r : list value) (i : nat)
    (inherits : bool) (obj : gmap jsstring value) : gmap jsstring value :=
  match hs with
  | [] => obj
  | h :: hs' =>
      if inherits && str_eqb h PROTO
      then assign_cells hs' r (S i) (negb (is_null (cell r i))) obj
      else assign_cells hs' r (S i) inherits (<[h := cell r i]> obj)
  end.

(** [parseValues(values)]; [None] is an absent [values]. *)
Definition parseValues (values : option (list (list value)))
    : list (gmap jsstring value) :=
  match values with
  | None | Some [] => []
  | Some (header_row :: data_rows) =>
      let headers := map (fun h => trim (ToString h)) header_row in
      map (fun r => assign_cells headers r 0 true ∅) data_rows
  end.

(** The character classes of [/^([0-9\.\-]+)\s*([bBmMtT])?$/]. *)
Definition is_numeric_unit (c : N) : bool :=
  is_digit c || (c =? 46)%N || (c =? 45)%N.

Definition is_suffix_unit (c : N) : bool :=
  ((c =? 98) || (c =? 66) || (c =? 109) || (c =? 77) || (c =? 116) || (c =? 84))%N.

(** [s.match(/^([0-9\.\-]+)\s*([bBmMtT])?$/)]: the two groups of a match,
    the second one empty when it took no part.  The three classes are
    disjoint, so the greedy reading is the only one. *)
Definition match_magnitude (s : jsstring) : option (jsstring * jsstring) :=
  let '(g1, r1) := span is_numeric_unit s in
  match g1 with
  | [] => None
  | _ =>
      let '(_, r2) := span is_space r1 in
      match r2 with
      | [] => Some (g1, [])
      | [c] => if is_suffix_unit c then Some (g1, [c]) else None
      | _ => None
      end
  end.

(** [s.replace(/[$,]/g, '')] *)
Definition strip_currency (s : jsstring) : jsstring :=
  List.filter (fun c => negb ((c =? 36) || (c =? 44))%N) s.

(** [v !== 0] *)
Definition is_number_zero (v : value) : bool :=
  match v with VNum x => is_zero x | _ => false end.

(** [parseNumber(v)].  Nothing in the [try] block throws on a primitive
    value, so the [catch] branch is never taken. *)
Definition parseNumber (v : value) : number :=
  if negb (ToBoolean v) && negb (is_number_zero v) then zero
  else
    let s := trim (strip_currency (ToString v)) in
    match match_magnitude s with
    | Some (m1, m2) =>
        let n := parseFloat m1 in
        let suf := toLowerCase m2 in
        let n := if str_eqb suf (js "b") then mul n (of_Z 1000000000) else n in
        let n := if str_eqb suf (js "m") then mul n (of_Z 1000000) else n in
        let n := if str_eqb suf (js "t") then mul n (of_Z 1000000000000) else n in
        n
    | None => or_zero (parseFloat s)
    end.

(** [parsePercent(v)] *)
Definition parsePercent (v : value) : number :=
  match v with
  | VUndefined | VNull | VStr [] => zero
  | _ =>
      let s := trim (remove_first 37 (ToString v)) in
      let n := parseFloat s in
      if isNaN n then zero else n
  end.

Definition yes_tokens : list jsstring :=
  [js "yes"; js "y"; js "true"; js "1"; js "reduced"; js "reduction"].
Definition no_tokens : list jsstring :=
  [js "no"; js "n"; js "false"; js "0"; js "unchanged"].

(** [normalizeYesNo(v)] *)
Definition normalizeYesNo (v : value) : jsstring :=
  if negb (ToBoolean v) then js "Unknown"
  else
    let s := toLowerCase (ToString v) in
    if existsb (fun x => includes s x) yes_tokens then js "Yes"
    else if existsb (fun x => includes s x) no_tokens then js "No"
    else toUpperCase (charAt0 s) ++ slice1 s.

(** One element of [chartData]. *)
Record entry := {
  name : value;
  marketCap : number;
  revenueGrowth : number;
  profitGrowth : number;
  marginExpansion : number;
  sector : value;
  revenueStream : value;
  debtReduced : jsstring
}.

(** The em dash the source shows for a company without a name. *)
Definition EM_DASH : jsstring := [8212%N].

Definition chart_entry (r : gmap jsstring value) : entry := {|
  name := or_else (get r (js "Company name"))
            (or_else (get r (js "Company Name"))
               (or_else (get r (js "Name"))
                  (or_else (get r (js "company")) (VStr EM_DASH))));
  marketCap := parseNumber (get r (js "Market cap"));
  revenueGrowth := parsePercent (get r (js "Revenue growth Percentage (YoY)"));
  profitGrowth := parsePercent (get r (js "Profit Growth Percentage (YoY)"));
  marginExpansion := parsePercent (get r (js "Margin Expansion"));
  sector := or_else (get r (js "Which Sector this Company"))
              (or_else (get r (js "Sector")) (VStr (js "Other")));
  revenueStream := or_else (get r (js "Main Revenue Stream")) (VStr []);
  debtReduced := normalizeYesNo (get r (js "Debt Reduced Or Not"))
|}.

(** [chartData]: [rows.map(r => ({...}))] *)
Definition chartData (rows : list (gmap jsstring value)) : list entry :=
  map chart_entry rows.

(** The names of the properties of [Object.prototype]: on an object made
    by [{}] the read [sectors[k]] finds them though [k] was never set. *)
Definition prototype_names : list jsstring :=
  [js "constructor"; js "__defineGetter__"; js "__defineSetter__";
   js "hasOwnProperty"; js "__lookupGetter__"; js "__lookupSetter__";
   js "isPrototypeOf"; js "propertyIsEnumerable"; js "toString";
   js "valueOf"; js "__proto__"; js "toLocaleString"].

(** A key that is an array index (the decimal text of an integer from [0]
    to [2^32 - 2]), and its number. *)
Definition array_index (k : jsstring) : option Z :=
  match k with
  | [] => None
  | c :: r =>
      if forallb is_digit k
         && (negb (c =? 48)%N || match r with [] => true | _ => false end)
         && (digits_value k <=? 4294967294)
      then Some (digits_value k)
      else None
  end.

(** The order of the own keys of an object: the array indices by their
    number, then the other keys as they were made.  [key_before k k'] says
    that a new key [k] goes before the key [k'] that is there. *)
Definition key_before (k k' : jsstring) : bool :=
  match array_index k, array_index k' with
  | Some n, Some n' => n <? n'
  | Some _, None => true
  | None, _ => false
  end.

(** What a property of [sectors] holds: a counter, or a text.  The text is
    what adding [1] to an inherited function gives; its characters are the
    engine's and are not modelled. *)
Inductive tally_value :=
  | Counter (c : nat)
  | Text.

(** [(v||0)+1] on what a property holds: a text is truthy, and adding [1]
    to it gives a text. *)
Definition plus_one (v : tally_value) : tally_value :=
  match v with
  | Counter c => Counter (S c)
  | Text => Text
  end.

(** A tally as the object [sectors] holds it: its own keys in the order of
    [Object.keys], each with what it holds. *)
Fixpoint tally_has (k : jsstring) (t : list (jsstring * tally_value)) : bool :=
  match t with
  | [] => false
  | (k', _) :: rest => str_eqb k k' || tally_has k rest
  end.

Fixpoint tally_increment (k : jsstring) (t : list (jsstring * tally_value))
    : list (jsstring * tally_value) :=
  match t with
  | [] => []
  | (k', v) :: rest =>
      if str_eqb k k' then (k', plus_one v) :: rest
      else (k', v) :: tally_increment k rest
  end.

Fixpoint tally_add (k : jsstring) (v : tally_value)
    (t : list (jsstring * tally_value)) : list (jsstring * tally_value) :=
  match t with
  | [] => [(k, v)]
  | (k', v') :: rest =>
      if key_before k k' then (k, v) :: t else (k', v') :: tally_add k v rest
  end.

(** The label names a property that [sectors] inherits. *)
Definition inherited (k : jsstring) : bool :=
  existsb (str_eqb k) prototype_names.

(** [sectors[k] = (sectors[k]||0)+1].  An own property goes up by one.  For
    a label that is not there, the read goes to [Object.prototype]: under
    [__proto__] it finds an object, and the write of the resulting text
    runs the setter, which ignores it; under another inherited name it
    finds a function, and the label comes in with a text; under any other
    label it finds nothing, and the label comes in with the counter [1]. *)
Definition bump (k : jsstring) (sectors : list (jsstring * tally_value))
    : list (jsstring * tally_value) :=
  if tally_has k sectors then tally_increment k sectors
  else if str_eqb k PROTO then sectors
  else if inherited k then tally_add k Text sectors
  else tally_add k (Counter 1) sectors.

Record summary := {
  count : nat;
  avgRevenueGrowth : number;
  avgProfitGrowth : number;
  sectors : list (jsstring * tally_value)
}.

(** [chartData.reduce((a,b)=>a+(b.field||0),0)] *)
Definition sum_field (field : entry -> number) (chartData : list entry) : number :=
  fold_left (fun a b => add a (or_zero (field b))) chartData zero.

(** [totals] *)
Definition totals (chartData : list entry) : summary :=
  let count := length chartData in
  {| count := count;
     avgRevenueGrowth :=
       match count with
       | O => zero
       | _ => div (sum_field revenueGrowth chartData) (of_nat count)
       end;
     avgProfitGrowth :=
       match count with
       | O => zero
       | _ => div (sum_field profitGrowth chartData) (of_nat count)
       end;
     sectors := fold_left (fun acc d => bump (ToString (sector d)) acc) chartData [] |}.

(** The comparator [(a,b)=>b.marginExpansion-a.marginExpansion]. *)
Definition by_margin (a b : entry) : number :=
  sub (marginExpansion b) (marginExpansion a).

(** [Array.prototype.sort(comparefn)].  The sort is stable and a [NaN]
    from the comparator counts as [0]; [a] moves behind [b] only when
    [comparefn(a, b) > 0].  With a comparator that is consistent, the one
    order this allows is the one built here by stable insertion. *)
Section Sort.
Context {A : Type} (comparefn : A -> A -> number).

Fixpoint insert_sorted (x : A) (l : list A) : list A :=
  match l with
  | [] => [x]
  | y :: l' =>
      if is_positive (comparefn x y) then y :: insert_sorted x l'
      else x :: l
  end.

Definition Array_sort (l : list A) : list A :=
  foldr insert_sorted [] l.
End Sort.

(** [chartData.sort(by_margin).slice(0, n)] as the render evaluates it: the
    list that is shown, and the contents of the [chartData] array after
    the call ([sort] works in place and returns the same array). *)
Definition sort_and_slice (n : nat) (chartData : list entry) : list entry * list entry :=
  let sorted := Array_sort by_margin chartData in
  (take n sorted, sorted).

(** The "Margin Expansion (Top 5)" list of the component. *)
Definition marginTop5 (chartData : list entry) : list entry * list entry :=
  sort_and_slice 5 chartData.

(** The company cell of the table:
    [r['Company name'] || r['Company Name'] || r['Name']]. *)
Definition table_company (r : gmap jsstring value) : value :=
  or_else (get r (js "Company name"))
    (or_else (get r (js "Company Name")) (get r (js "Name"))).

(** The state of the component: [rows], [loading] and [error] ([None] is
    [null]). *)
Record state := {
  rows : list (gmap jsstring value);
  loading : bool;
  error : option jsstring
}.

(** An [Error] object as [catch (e)] sees it. *)
Record exception := {
  exn_name : jsstring;
  exn_message : jsstring
}.

(** What the network does to one call of [fetchSheet]: the response is ok
    and its body parses to an object whose [values] is absent or a grid;
    the response is not ok and has the given body text; or something in
    the [try] block throws. *)
Inductive outcome :=
  | Resolved (values : option (list (list value)))
  | NotOk (body : jsstring)
  | Thrown (e : exception).

(** [String(e)] on an [Error] object ([Error.prototype.toString]). *)
Definition ErrorToString (e : exception) : jsstring :=
  match exn_name e, exn_message e with
  | [], msg => msg
  | nm, [] => nm
  | nm, msg => nm ++ js ": " ++ msg
  end.

(** [e.message || String(e)] *)
Definition error_text (e : exception) : jsstring :=
  match exn_message e with
  | [] => ErrorToString e
  | msg => msg
  end.

(** [setLoading(true); setError(null);] *)
Definition fetch_begin (st : state) : state :=
  {| rows := rows st; loading := true; error := None |}.

(** The [try], [catch] and [finally] blocks of [fetchSheet], the awaited
    calls ending as the outcome says. *)
Definition fetch_end (st : state) (o : outcome) : state :=
  match o with
  | Resolved values =>
      {| rows := parseValues values; loading := false; error := error st |}
  | NotOk body =>
      {| rows := rows st; loading := false;
         error := Some (error_text {| exn_name := js "Error"; exn_message := body |}) |}
  | Thrown e =>
      {| rows := rows st; loading := false; error := Some (error_text e) |}
  end.

(** One call of [fetchSheet] from start to finish, no other call running
    meanwhile. *)
Definition fetchSheet (st : state) (o : outcome) : state :=
  fetch_end (fetch_begin st) o.

End Dashboard.

Import Dashboard.

(** ** Notions the properties are stated with *)

(** The exponent of a finite double is at least [emin = -1074]. *)
Definition in_range (x : number) : Prop :=
  match x with
  | S754_finite _ _ e => -1074 <= e
  | _ => True
  end.

(** A number as a coercion delivers it: not [NaN], and a double. *)
Definition proper (x : number) : Prop := isNaN x = false /\ in_range x.

(** A finite number in units of [2^-1074]. *)
Definition scaled (x : number) : Z :=
  match x with
  | S754_finite s m e => cond_Zopp s (Zpos m * 2 ^ (e + 1074))
  | _ => 0
  end.

(** The order of the values: [num_ltb x y] is [x < y], false on [NaN]. *)
Definition num_ltb (x y : number) : bool :=
  match x, y with
  | S754_nan, _ | _, S754_nan => false
  | S754_infinity s1, S754_infinity s2 => s1 && negb s2
  | S754_infinity s, _ => s
  | _, S754_infinity s => negb s
  | _, _ => scaled x <? scaled y
  end.

(** [x == y] on numbers: equal values, [+0] and [-0] alike. *)
Definition num_eqb (x y : number) : bool :=
  negb (isNaN x) && negb (isNaN y) && negb (num_ltb x y) && negb (num_ltb y x).

(** A non-zero number of sign [s] ([true] for negative). *)
Definition has_sign (s : bool) (x : number) : Prop :=
  match x with
  | S754_finite s' _ _ | S754_infinity s' => s' = s
  | _ => False
  end.

(** The three percentages of an entry as [parsePercent] delivers them. *)
Definition percentages_proper (e : entry) : Prop :=
  proper (revenueGrowth e) /\ proper (profitGrowth e) /\ proper (marginExpansion e).

(** [a] may stand before [b] in a list that descends by margin expansion. *)
Definition margin_ge (a b : entry) : Prop :=
  num_ltb (marginExpansion a) (marginExpansion b) = false.

(** The entries whose margin expansion equals [v]. *)
Definition margin_is (v : number) (e : entry) : bool :=
  num_eqb (marginExpansion e) v.

(** The doubles of a list added up from the left in double arithmetic,
    each sum rounded, from [0] on. *)
Definition left_sum (l : list number) : number :=
  fold_left add l zero.

(** The exact sum of a list of finite doubles, in units of [2^-1074]. *)
Definition exact_sum (l : list number) : Z :=
  fold_right (fun x acc => scaled x + acc) 0 l.

(** A zero or a finite double: neither [NaN] nor an infinity. *)
Definition is_finite (x : number) : bool :=
  match x with
  | S754_zero _ | S754_finite _ _ _ => true
  | _ => false
  end.

(** The finite double [m] is the arithmetic mean of the finite doubles
    [l]: [m] times their number is their exact sum. *)
Definition arithmetic_mean (m : number) (l : list number) : Prop :=
  is_finite m = true /\
  forallb is_finite l = true /\
  scaled m * Z.of_nat (length l) = exact_sum l.

(** A text cell. *)
Definition text (s : string) : value := VStr (js s).

(** [t] occurs in [s]. *)
Definition is_substring (t s : jsstring) : Prop :=
  exists a b, s = a ++ t ++ b.

(** The first of the [aliases] whose value in the record is truthy. *)
Fixpoint first_truthy (r : gmap jsstring value) (aliases : list jsstring) : option value :=
  match aliases with
  | [] => None
  | k :: rest => if ToBoolean (get r k) then Some (get r k) else first_truthy r rest
  end.

Definition name_aliases : list jsstring :=
  [js "Company name"; js "Company Name"; js "Name"; js "company"].
Definition sector_aliases : list jsstring :=
  [js "Which Sector this Company"; js "Sector"].
Definition stream_aliases : list jsstring := [js "Main Revenue Stream"].

(** [coercePercent] as the specification words it: a percent sign is
    taken off the end of the text only, the rest is read as a float, and
    what cannot be read is [0]. *)
Definition strip_trailing_percent (s : jsstring) : jsstring :=
  match rev s with
  | 37%N :: r => rev r
  | _ => s
  end.

Definition coercePercent_spec (raw : value) : number :=
  let n := parseFloat (strip_trailing_percent (ToString raw)) in
  if isNaN n then zero else n.

(** The grid of the end-to-end scenario. *)
Definition scenario_grid : option (list (list value)) :=
  Some [ [text "Company name"; text "Market cap";
          text "Revenue growth Percentage (YoY)"; text "Debt Reduced Or Not"];
         [text "Acme"; text "1.2B"; text "15%"; text "Reduced"];
         [text "Globex"; text "$500M"; text "-3.5%"; text "Unchanged"] ].

(** Three companies, two of them with the same margin expansion. *)
Definition tie_grid : option (list (list value)) :=
  Some [ [text "Company name"; text "Margin Expansion"];
         [text "A"; text "5"]; [text "B"; text "5"]; [text "C"; text "3"] ].

(** Two companies in rising order of margin expansion. *)
Definition rising_grid : option (list (list value)) :=
  Some [ [text "Company name"; text "Margin Expansion"];
         [text "A"; text "3%"]; [text "B"; text "5%"] ].

(** A row that is shorter and a row that is longer than the header row. *)
Definition ragged_grid : option (list (list value)) :=
  Some [ [text " Company name "; text "Symbol"];
         [text "Acme"];
         [text "Globex"; text "GBX"; text "extra"] ].

(** The entry of a row in which none of the expected columns has a
    value. *)
Definition default_entry : entry := {|
  name := VStr EM_DASH;
  marketCap := zero;
  revenueGrowth := zero;
  profitGrowth := zero;
  marginExpansion := zero;
  sector := text "Other";
  revenueStream := VStr [];
  debtReduced := js "Unknown"
|}.

(** The header names [chartData] reads. *)
Definition expected_columns : list jsstring :=
  [js "Company name"; js "Company Name"; js "Name"; js "company";
   js "Market cap"; js "Revenue growth Percentage (YoY)";
   js "Profit Growth Percentage (YoY)"; js "Margin Expansion";
   js "Which Sector this Company"; js "Sector"; js "Main Revenue Stream";
   js "Debt Reduced Or Not"].

(** The text neither begins nor ends with white space. *)
Definition trimmed (s : jsstring) : Prop :=
  match s with
  | [] => True
  | c :: _ => is_space c = false
  end /\
  match rev s with
  | [] => True
  | c :: _ => is_space c = false
  end.

(** The entries filed under the sector label [k]. *)
Definition in_sector (k : jsstring) (l : list entry) : list entry :=
  List.filter (fun d => str_eqb (ToString (sector d)) k) l.

(** The count a property of a tally stands for, a text counting for
    nothing. *)
Definition counter_of (v : tally_value) : nat :=
  match v with
  | Counter c => c
  | Text => 0%nat
  end.

(** The sum of the counters of a tally. *)
Definition tally_total (t : list (jsstring * tally_value)) : nat :=
  fold_right (fun kc acc => (counter_of (snd kc) + acc)%nat) 0%nat t.

(** A property of a tally that is a counter and not [0]. *)
Definition positive_counter (kc : jsstring * tally_value) : Prop :=
  exists c, snd kc = Counter (S c).

(** The factor a magnitude suffix stands for: [b] or [B], [m] or [M],
    and [t] or [T]. *)
Definition suffix_factor (c : N) : number :=
  if ((c =? 98) || (c =? 66))%N then of_Z 1000000000
  else if ((c =? 109) || (c =? 77))%N then of_Z 1000000
  else of_Z 1000000000000.

(** The rows a run of calls should leave: those of the last call that
    resolved, the rows before the run when none did. *)
Fixpoint rows_after (before : list (gmap jsstring value)) (os : list outcome)
    : list (gmap jsstring value) :=
  match os with
  | [] => before
  | Resolved values :: rest => rows_after (parseValues values) rest
  | _ :: rest => rows_after before rest
  end.

(** The counter under the label [k] of a tally, [0] standing for a label
    that is not there or that holds no counter. *)
Fixpoint tally_get (k : jsstring) (t : list (jsstring * tally_value)) : nat :=
  match t with
  | [] => 0%nat
  | (k', v) :: rest => if str_eqb k k' then counter_of v else tally_get k rest
  end.

(** A call that failed, by a response that is not ok or by an exception
    that has a name (as every built-in error has). *)
Definition failed (o : outcome) : Prop :=
  match o with
  | Resolved _ => False
  | NotOk _ => True
  | Thrown e => exn_name e <> []
  end.

(** A header that is [__proto__]. *)
Definition proto_grid : option (list (list value)) :=
  Some [ [text "__proto__"]; [text "x"] ].

(** Four revenue growths that cancel: their arithmetic mean is [0.5]. *)
Definition cancelling_grid : option (list (list value)) :=
  Some [ [text "Revenue growth Percentage (YoY)"];
         [text "1e16"]; [text "1"]; [text "-1e16"]; [text "1"] ].

(** Sector labels of every kind: plain ones, array indices, and names of
    [Object.prototype]. *)
Definition labels_grid : option (list (list value)) :=
  Some [ [text "Sector"];
         [text "Tech"]; [text "10"]; [text "constructor"]; [text "2"];
         [text "__proto__"]; [text "Tech"]; [text "constructor"] ].

(** Six companies in rising order of margin expansion. *)
Definition six_grid : option (list (list value)) :=
  Some [ [text "Company name"; text "Margin Expansion"];
         [text "A"; text "1%"]; [text "B"; text "2%"]; [text "C"; text "3%"];
         [text "D"; text "4%"]; [text "E"; text "5%"]; [text "F"; text "6%"] ].

(** ** The run time on examples *)

Example parseFloat_examples :
  parseFloat (js "12.5") = num 25 (-1) /\
  parseFloat (js "  -3.5e0xyz") = num (-7) (-1) /\
  parseFloat (js ".5e1") = of_Z 5 /\
  parseFloat (js "1e400") = Infinity /\
  parseFloat (js "-Infinity") = S754_infinity true /\
  parseFloat (js "5e-324") = S754_finite false 1 (-1074) /\
  parseFloat (js "0.1") = S754_finite false 7205759403792794 (-56) /\
  parseFloat (js "-") = NaN /\
  parseFloat (js ".") = NaN /\
  parseFloat [] = NaN.
Proof. repeat apply conj; vm_compute; reflexivity. Qed.

Example NumberToString_examples :
  map (fun s => NumberToString (parseFloat (js s)))
      ["0.1"; "12.50"; "1e21"; "123456789012345680000"; "5e-324"; "-0.000001";
       "1e-7"; "9007199254740993"; "1e23"; "-0"]%string
  = map js
      ["0.1"; "12.5"; "1e+21"; "123456789012345680000"; "5e-324"; "-0.000001";
       "1e-7"; "9007199254740992"; "1e+23"; "0"]%string /\
  NumberToString (add (parseFloat (js "0.1")) (parseFloat (js "0.2")))
  = js "0.30000000000000004".
Proof. split; vm_compute; reflexivity. Qed.

Example parseNumber_examples :
  parseNumber (text "1.2B") = of_Z 1200000000 /\
  parseNumber (text "450M") = of_Z 450000000 /\
  parseNumber (text "$2,500") = of_Z 2500 /\
  parseNumber (text " 1.5 t ") = of_Z 1500000000000 /\
  parseNumber (VStr []) = zero /\
  parseNumber (text "abc") = zero /\
  parseNumber VUndefined = zero /\
  parseNumber (VNum (of_Z 0)) = zero /\
  parseNumber (VNum (num 25 (-1))) = num 25 (-1).
Proof. repeat apply conj; vm_compute; reflexivity. Qed.

Example normalizeYesNo_examples :
  normalizeYesNo (VBool true) = js "Yes" /\
  normalizeYesNo (VNum (of_Z 5)) = js "5" /\
  normalizeYesNo (VNum (of_Z 10)) = js "Yes" /\
  normalizeYesNo (text "nothing") = js "No" /\
  normalizeYesNo VNull = js "Unknown".
Proof. repeat apply conj; vm_compute; reflexivity. Qed.

Example totals_sectors_example :
  sectors (totals (chartData (parseValues scenario_grid))) = [(js "Other", Counter 2)].
Proof. vm_compute. reflexivity. Qed.

(** The keys that are array indices come first, by their number; a name
    of [Object.prototype] comes in with a text, and [__proto__] not at
    all. *)
Example totals_labels_example :
  sectors (totals (chartData (parseValues labels_grid)))
  = [(js "2", Counter 1); (js "10", Counter 1); (js "Tech", Counter 2);
     (js "constructor", Text)].
Proof. vm_compute. reflexivity. Qed.

(** ** Rounding: exponent range and sign of the results *)

Lemma digits2_pos_size (m : positive) : digits2_pos m = Pos.size m.
Proof. induction m; simpl; congruence. Qed.

Lemma digits2_pos_lower (m : positive) : 2 ^ (Zpos (digits2_pos m) - 1) <= Zpos m.
Proof.
  rewrite digits2_pos_size.
  pose proof (Pos.size_le m) as H.
  apply Pos2Z.pos_le_pos in H. rewrite Pos2Z.inj_pow in H.
  replace (Zpos (Pos.size m)) with (Z.succ (Zpos (Pos.size m) - 1)) in H by lia.
  rewrite Z.pow_succ_r in H by lia. lia.
Qed.

Lemma shr_1_mantissa (r : shr_record) :
  0 <= shr_m r -> shr_m (shr_1 r) = shr_m r / 2.
Proof.
  destruct r as [m b c]; simpl. intros Hm.
  destruct m as [|p|p]; [reflexivity| |lia].
  destruct p as [p|p|]; simpl shr_m.
  - rewrite Pos2Z.inj_xI. apply Z.div_unique with 1; lia.
  - rewrite Pos2Z.inj_xO. apply Z.div_unique with 0; lia.
  - reflexivity.
Qed.

Lemma iter_shr_1_mantissa (p : positive) :
  forall r, 0 <= shr_m r -> shr_m (SpecFloat.iter_pos shr_1 p r) = shr_m r / 2 ^ Zpos p.
Proof.
  induction p as [p IH|p IH|]; intros r Hr; simpl SpecFloat.iter_pos.
  - assert (H1 : 0 <= shr_m (shr_1 r)) by (rewrite shr_1_mantissa by lia; apply Z.div_pos; lia).
    assert (H2 : 0 <= shr_m (SpecFloat.iter_pos shr_1 p (shr_1 r)))
      by (rewrite IH by lia; apply Z.div_pos; lia).
    rewrite IH by lia. rewrite IH by lia. rewrite shr_1_mantissa by lia.
    rewrite !Z.div_div by lia. f_equal.
    rewrite Pos2Z.inj_xI.
    replace (2 * Z.pos p + 1) with (Z.pos p + Z.pos p + 1) by lia.
    rewrite !Z.pow_add_r by lia. change (2 ^ 1) with 2. ring.
  - assert (H2 : 0 <= shr_m (SpecFloat.iter_pos shr_1 p r))
      by (rewrite IH by lia; apply Z.div_pos; lia).
    rewrite IH by lia. rewrite IH by lia.
    rewrite !Z.div_div by lia. f_equal.
    rewrite Pos2Z.inj_xO. rewrite <- Z.pow_add_r by lia. f_equal. lia.
  - rewrite shr_1_mantissa by lia. reflexivity.
Qed.

Lemma shr_fexp_exponent (m e : Z) (l : location) :
  snd (shr_fexp prec emax m e l) = Z.max e (fexp prec emax (Zdigits2 m + e)).
Proof.
  unfold shr_fexp, shr.
  destruct (fexp prec emax (Zdigits2 m + e) - e) eqn:E; simpl; lia.
Qed.

Lemma fexp_lower (z : Z) : -1074 <= fexp prec emax z.
Proof. unfold fexp, emin, prec, emax. lia. Qed.

Lemma shr_fexp_mantissa (m e : Z) (l : location) :
  1 <= m -> -1074 <= e -> 1 <= shr_m (fst (shr_fexp prec emax m e l)).
Proof.
  intros Hm He. unfold shr_fexp, shr.
  assert (Hr : shr_m (shr_record_of_loc m l) = m) by (destruct l as [|[]]; reflexivity).
  destruct (fexp prec emax (Zdigits2 m + e) - e) as [|p|p] eqn:E; simpl fst;
    rewrite ?Hr; try lia.
  rewrite iter_shr_1_mantissa by lia. rewrite Hr.
  destruct m as [|q|q]; try lia. simpl Zdigits2 in E.
  pose proof (digits2_pos_lower q) as Hq.
  assert (Hp : Zpos p <= Zpos (digits2_pos q) - 1)
    by (unfold fexp, emin, prec, emax in E; lia).
  assert (H2 : 2 ^ Zpos p <= 2 ^ (Zpos (digits2_pos q) - 1))
    by (apply Z.pow_le_mono_r; lia).
  assert (H3 : 0 < 2 ^ Zpos p) by (apply Z.pow_pos_nonneg; lia).
  apply Z.div_le_lower_bound; lia.
Qed.

Lemma round_nearest_even_lower (m : Z) (l : location) :
  1 <= m -> 1 <= round_nearest_even m l.
Proof.
  intros Hm. destruct l as [|[]]; simpl; try lia.
  destruct (Z.even m); lia.
Qed.

Lemma binary_round_aux_in_range (s : bool) (m e : Z) (l : location) :
  in_range (binary_round_aux prec emax s m e l).
Proof.
  unfold binary_round_aux.
  destruct (shr_fexp prec emax m e l) as [r1 e1] eqn:E1.
  destruct (shr_fexp prec emax _ e1 loc_Exact) as [r2 e2] eqn:E2.
  destruct (shr_m r2); simpl; trivial.
  destruct (e2 <=? emax - prec); simpl; trivial.
  pose proof (shr_fexp_exponent (round_nearest_even (shr_m r1) (loc_of_shr_record r1)) e1 loc_Exact) as H.
  rewrite E2 in H. simpl in H.
  pose proof (fexp_lower (Zdigits2 (round_nearest_even (shr_m r1) (loc_of_shr_record r1)) + e1)).
  lia.
Qed.

Lemma binary_round_aux_sign (s : bool) (m e : Z) (l : location) :
  1 <= m -> -1074 <= e -> has_sign s (binary_round_aux prec emax s m e l).
Proof.
  intros Hm He. unfold binary_round_aux.
  pose proof (shr_fexp_mantissa m e l Hm He) as M1.
  pose proof (shr_fexp_exponent m e l) as X1.
  destruct (shr_fexp prec emax m e l) as [r1 e1]. simpl in M1, X1.
  pose proof (round_nearest_even_lower _ (loc_of_shr_record r1) M1) as M1'.
  assert (He1 : -1074 <= e1) by lia.
  pose proof (shr_fexp_mantissa _ e1 loc_Exact M1' He1) as M2.
  destruct (shr_fexp prec emax _ e1 loc_Exact) as [r2 e2]. simpl in M2.
  destruct (shr_m r2); try lia.
  destruct (e2 <=? emax - prec); reflexivity.
Qed.

Lemma iter_xO_value (d m : positive) :
  Zpos (Pos.iter xO m d) = Zpos m * 2 ^ Zpos d.
Proof.
  induction d as [|d IH] using Pos.peano_ind.
  - simpl. lia.
  - rewrite Pos.iter_succ, Pos2Z.inj_xO, IH, Pos2Z.inj_succ, Z.pow_succ_r by lia. ring.
Qed.

Lemma shl_align_value (m : positive) (e e' : Z) :
  e' <= e -> Zpos (fst (shl_align m e e')) = Zpos m * 2 ^ (e - e').
Proof.
  intros H. unfold shl_align.
  destruct (e' - e) as [|d|d] eqn:E; simpl fst; try lia.
  - replace (e - e') with 0 by lia. simpl. lia.
  - rewrite iter_xO_value. f_equal. f_equal. lia.
Qed.

Lemma shl_align_exponent (m : positive) (e e' : Z) :
  snd (shl_align m e e') = Z.min e e'.
Proof.
  unfold shl_align. destruct (e' - e) eqn:E; simpl; lia.
Qed.

Lemma binary_round_in_range (s : bool) (m : positive) (e : Z) :
  in_range (binary_round prec emax s m e).
Proof.
  unfold binary_round. destruct (shl_align _ _ _). apply binary_round_aux_in_range.
Qed.

Lemma binary_round_sign (s : bool) (m : positive) (e : Z) :
  -1074 <= e -> has_sign s (binary_round prec emax s m e).
Proof.
  intros He. unfold binary_round.
  pose proof (shl_align_exponent m e (fexp prec emax (Zpos (digits2_pos m) + e))) as X.
  pose proof (fexp_lower (Zpos (digits2_pos m) + e)).
  destruct (shl_align _ _ _) as [mz ez]. simpl in X.
  apply binary_round_aux_sign; lia.
Qed.

Lemma binary_normalize_in_range (m e : Z) (sz : bool) :
  in_range (binary_normalize prec emax m e sz).
Proof.
  destruct m; simpl; trivial; apply binary_round_in_range.
Qed.

Lemma binary_normalize_sign (m e : Z) (sz : bool) :
  m <> 0 -> -1074 <= e ->
  has_sign (m <? 0) (binary_normalize prec emax m e sz).
Proof.
  intros Hm He. destruct m as [|p|p]; [lia| |]; simpl binary_normalize.
  - apply (binary_round_sign false); trivial.
  - apply (binary_round_sign true); trivial.
Qed.

(** ** Sign of a difference, zero of a sum *)

Lemma scaled_align (s : bool) (m : positive) (e ez : Z) :
  -1074 <= ez -> ez <= e ->
  cond_Zopp s (Zpos m * 2 ^ (e + 1074))
  = cond_Zopp s (Zpos (fst (shl_align m e ez))) * 2 ^ (ez + 1074).
Proof.
  intros H1 H2. rewrite shl_align_value by lia.
  replace (e + 1074) with ((e - ez) + (ez + 1074)) by lia.
  rewrite Z.pow_add_r by lia. destruct s; simpl; ring.
Qed.

Lemma is_positive_has_sign (s : bool) (x : number) :
  has_sign s x -> is_positive x = negb s.
Proof. destruct x as [| [] | | [] ? ?]; simpl; intros; subst; trivial; contradiction. Qed.

Lemma is_negative_has_sign (s : bool) (x : number) :
  has_sign s x -> is_negative x = s.
Proof. destruct x as [| [] | | [] ? ?]; simpl; intros; subst; trivial; contradiction. Qed.

(** The difference of two finite doubles is [+0] when they are equal, and
    has the sign of the exact difference otherwise: a difference of
    doubles never rounds to zero. *)
Lemma sub_finite (sx sy : bool) (mx my : positive) (ex ey : Z) :
  -1074 <= ex -> -1074 <= ey ->
  let x := S754_finite sx mx ex in
  let y := S754_finite sy my ey in
  (scaled y = scaled x -> sub y x = S754_zero false) /\
  (scaled y <> scaled x -> has_sign (scaled y <? scaled x) (sub y x)).
Proof.
  intros Hx Hy x y. unfold x, y, sub, SFsub, scaled.
  set (ez := Z.min ey ex).
  rewrite (scaled_align sx mx ex ez), (scaled_align sy my ey ez) by lia.
  set (X := cond_Zopp sx (Zpos (fst (shl_align mx ex ez)))).
  set (Y := cond_Zopp sy (Zpos (fst (shl_align my ey ez)))).
  assert (HP : 0 < 2 ^ (ez + 1074)) by (apply Z.pow_pos_nonneg; lia).
  split; intros E.
  - assert (E0 : Y - X = 0) by nia. now rewrite E0.
  - assert (E0 : Y - X <> 0) by nia.
    replace (Y * 2 ^ (ez + 1074) <? X * 2 ^ (ez + 1074)) with (Y - X <? 0).
    + apply binary_normalize_sign; lia.
    + destruct (Z.ltb_spec (Y - X) 0); symmetry;
        [apply Z.ltb_lt | apply Z.ltb_ge]; nia.
Qed.

Ltac zero_and_finite :=
  match goal with
  | H : in_range (S754_finite _ _ ?e) |- _ =>
      simpl in H; unfold sub, num_ltb, scaled; simpl;
      assert (0 < 2 ^ (e + 1074)) by (apply Z.pow_pos_nonneg; lia);
      match goal with
      | |- context [cond_Zopp ?s _] => destruct s
      | |- context [negb ?s] => destruct s
      | |- context [if ?s then _ else _] => destruct s
      end; simpl; symmetry;
      first [apply Z.ltb_lt; nia | apply Z.ltb_ge; nia]
  end.

Ltac two_finite tac :=
  match goal with
  | Hx : in_range (S754_finite ?sx ?mx ?ex), Hy : in_range (S754_finite ?sy ?my ?ey)
    |- context [sub (S754_finite ?sy ?my ?ey) (S754_finite ?sx ?mx ?ex)] =>
      simpl in Hx, Hy;
      destruct (sub_finite sx sy mx my ex ey Hx Hy) as [HZ HN];
      unfold num_ltb;
      destruct (Z.eq_dec (scaled (S754_finite sy my ey)) (scaled (S754_finite sx mx ex)))
        as [E|E];
      [ rewrite (HZ E); simpl is_positive; simpl is_negative; symmetry;
        apply Z.ltb_ge; lia
      | rewrite (tac _ _ (HN E));
        destruct (Z.ltb_spec (scaled (S754_finite sy my ey))
                             (scaled (S754_finite sx mx ex)));
        cbn [negb]; symmetry;
        first [reflexivity | apply Z.ltb_lt; lia | apply Z.ltb_ge; lia] ]
  end.

(** The comparator's test [b - a > 0] is the order [a < b] of the values. *)
Lemma sub_positive (x y : number) :
  in_range x -> in_range y -> is_positive (sub y x) = num_ltb x y.
Proof.
  intros Hx Hy.
  destruct x as [sx|sx| |sx mx ex], y as [sy|sy| |sy my ey];
    try (destruct sx, sy; reflexivity); try (destruct sx; reflexivity);
    try (destruct sy; reflexivity); try reflexivity.
  - zero_and_finite.
  - zero_and_finite.
  - two_finite is_positive_has_sign.
Qed.

(** The comparator's test [b - a < 0] is the order [b < a] of the values. *)
Lemma sub_negative (x y : number) :
  in_range x -> in_range y -> is_negative (sub y x) = num_ltb y x.
Proof.
  intros Hx Hy.
  destruct x as [sx|sx| |sx mx ex], y as [sy|sy| |sy my ey];
    try (destruct sx, sy; reflexivity); try (destruct sx; reflexivity);
    try (destruct sy; reflexivity); try reflexivity.
  - zero_and_finite.
  - zero_and_finite.
  - two_finite is_negative_has_sign.
Qed.

Lemma add_in_range (a b : number) :
  in_range a -> in_range b -> in_range (add a b).
Proof.
  intros Ha Hb.
  destruct a as [sa|sa| |sa ma ea], b as [sb|sb| |sb mb eb];
    try (destruct sa, sb; exact I); trivial.
  apply binary_normalize_in_range.
Qed.

Lemma add_not_negative_zero (a b : number) :
  in_range a -> in_range b ->
  a <> S754_zero true -> add a b <> S754_zero true.
Proof.
  intros Ha Hb Hz.
  destruct a as [sa|sa| |sa ma ea], b as [sb|sb| |sb mb eb];
    try (destruct sa, sb; simpl; congruence); try (simpl; congruence).
  simpl in Ha, Hb. unfold add, SFadd.
  set (ez := Z.min ea eb).
  set (d := cond_Zopp sa _ + cond_Zopp sb _).
  destruct (Z.eq_dec d 0) as [E|E].
  - rewrite E. simpl. congruence.
  - pose proof (binary_normalize_sign d ez false E ltac:(lia)) as S.
    destruct (binary_normalize prec emax d ez false); simpl in S; congruence.
Qed.

(** Adding [x || 0] or [x] is the same, unless [x] is [NaN]. *)
Lemma add_or_zero (a x : number) :
  a <> S754_zero true -> isNaN x = false -> add a (or_zero x) = add a x.
Proof.
  intros Ha Hx.
  destruct x as [sx|sx| |sx mx ex]; try discriminate; try reflexivity.
  destruct a as [sa|sa| |sa ma ea]; try reflexivity.
  destruct sa, sx; try reflexivity. congruence.
Qed.

(** ** The coercions deliver proper numbers *)

Lemma of_decimal_in_range (s : bool) (m e : Z) : in_range (of_decimal s m e).
Proof.
  unfold of_decimal. destruct m as [|p|p]; simpl; trivial.
  destruct e as [|q|q].
  - apply binary_round_in_range.
  - apply binary_round_in_range.
  - destruct (SFdiv_core_binary _ _ _ _ _ _) as [[q' e'] l].
    apply binary_round_aux_in_range.
Qed.

Lemma parseFloat_in_range (s : jsstring) : in_range (parseFloat s).
Proof.
  unfold parseFloat.
  destruct (read_sign (trimStart s)) as [neg s1].
  destruct (starts_with _ s1); [exact I|].
  destruct (span is_digit s1) as [ip s2].
  destruct (match s2 with 46%N :: r => span is_digit r | _ => ([], s2) end) as [fp s3].
  destruct (ip ++ fp); [exact I|]. apply of_decimal_in_range.
Qed.

Lemma parsePercent_proper (v : value) : proper (parsePercent v).
Proof.
  assert (G : forall s, proper (let n := parseFloat s in if isNaN n then zero else n)).
  { intros s. simpl. pose proof (parseFloat_in_range s) as H.
    destruct (parseFloat s); simpl; split; trivial. }
  unfold parsePercent.
  destruct v as [| |b|x|s]; try (split; [reflexivity|exact I]); try apply G.
  destruct s; [split; [reflexivity|exact I]|apply G].
Qed.

Lemma chart_entry_proper (r : gmap jsstring value) :
  percentages_proper (chart_entry r).
Proof. repeat split; apply parsePercent_proper. Qed.

Lemma chartData_proper (rows : list (gmap jsstring value)) :
  Forall percentages_proper (chartData rows).
Proof.
  induction rows as [|r rows IH]; simpl; constructor; trivial.
  apply chart_entry_proper.
Qed.

(** ** The order of the values *)

Lemma num_ltb_ge_trans (a b c : number) :
  isNaN b = false -> num_ltb a b = false -> num_ltb b c = false -> num_ltb a c = false.
Proof.
  unfold num_ltb. intros Hb H1 H2.
  destruct a as [sa|sa| |sa ma ea], b as [sb|sb| |sb mb eb], c as [sc|sc| |sc mc ec];
    try discriminate; try reflexivity;
    try (destruct sa; try discriminate); try (destruct sb; try discriminate);
    try (destruct sc; try discriminate); try reflexivity;
    rewrite ?Z.ltb_ge in *; lia.
Qed.

Lemma num_ltb_asym (a b : number) : num_ltb a b = true -> num_ltb b a = false.
Proof.
  unfold num_ltb. intros H.
  destruct a as [sa|sa| |sa ma ea], b as [sb|sb| |sb mb eb];
    try discriminate; try reflexivity;
    try (destruct sa; try discriminate); try (destruct sb; try discriminate);
    try reflexivity;
    rewrite ?Z.ltb_ge, ?Z.ltb_lt in *; lia.
Qed.

Lemma num_eqb_not_ltb (x y v : number) :
  num_eqb x v = true -> num_eqb y v = true -> num_ltb x y = false.
Proof.
  unfold num_eqb. intros Hx Hy.
  apply andb_prop in Hx as [[[_ Nv]%andb_prop Hxv]%andb_prop _].
  apply andb_prop in Hy as [_ Hvy].
  apply negb_true_iff in Nv, Hxv, Hvy.
  now apply num_ltb_ge_trans with v.
Qed.

(** ** [Array.prototype.sort] with the margin comparator *)

Lemma insert_sorted_perm {A : Type} (cmp : A -> A -> number) (x : A) (l : list A) :
  Permutation (insert_sorted cmp x l) (x :: l).
Proof.
  induction l as [|y l IH]; simpl; [reflexivity|].
  destruct (is_positive (cmp x y)); [|reflexivity].
  rewrite IH. apply perm_swap.
Qed.

Lemma Array_sort_perm {A : Type} (cmp : A -> A -> number) (l : list A) :
  Permutation (Array_sort cmp l) l.
Proof.
  induction l as [|x l IH]; simpl; [reflexivity|].
  rewrite insert_sorted_perm. now constructor.
Qed.

Lemma by_margin_positive (a b : entry) :
  proper (marginExpansion a) -> proper (marginExpansion b) ->
  is_positive (by_margin a b) = num_ltb (marginExpansion a) (marginExpansion b).
Proof. intros [_ Ha] [_ Hb]. now apply sub_positive. Qed.

(** The comparator is consistent on proper margins: its sign is the order
    of the margin expansions, and it is [0] or [NaN] only between equal
    ones. *)
Lemma by_margin_negative (a b : entry) :
  proper (marginExpansion a) -> proper (marginExpansion b) ->
  is_negative (by_margin a b) = num_ltb (marginExpansion b) (marginExpansion a).
Proof. intros [_ Ha] [_ Hb]. now apply sub_negative. Qed.

Lemma insert_sorted_descending (x : entry) (l : list entry) :
  proper (marginExpansion x) ->
  Forall (fun e => proper (marginExpansion e)) l ->
  StronglySorted margin_ge l ->
  StronglySorted margin_ge (insert_sorted by_margin x l).
Proof.
  intros Hx Hl Hs. induction Hs as [|y l Hs IH Hy]; simpl.
  - repeat constructor.
  - inversion Hl as [|? ? Py Pl]; subst.
    rewrite by_margin_positive by trivial.
    destruct (num_ltb (marginExpansion x) (marginExpansion y)) eqn:E.
    + constructor; [now apply IH|].
      eapply Permutation_Forall; [symmetry; apply insert_sorted_perm|].
      constructor; trivial. now apply num_ltb_asym.
    + constructor; [now constructor|].
      constructor; trivial.
      eapply Forall_impl; [exact Hy|]. intros z Hz. simpl in Hz.
      unfold margin_ge in *. apply num_ltb_ge_trans with (marginExpansion y); trivial.
      apply Py.
Qed.

Lemma insert_sorted_filter (v : number) (x : entry) (l : list entry) :
  proper (marginExpansion x) ->
  Forall (fun e => proper (marginExpansion e)) l ->
  List.filter (margin_is v) (insert_sorted by_margin x l)
  = List.filter (margin_is v) (x :: l).
Proof.
  intros Hx Hl. induction Hl as [|y l Py Pl IH]; [reflexivity|].
  simpl insert_sorted. rewrite by_margin_positive by trivial.
  destruct (num_ltb (marginExpansion x) (marginExpansion y)) eqn:E; [|reflexivity].
  simpl List.filter at 1. rewrite IH. simpl.
  destruct (margin_is v y) eqn:Ey, (margin_is v x) eqn:Ex; trivial.
  unfold margin_is in *. rewrite (num_eqb_not_ltb _ _ v Ex Ey) in E. discriminate.
Qed.

Lemma Array_sort_descending (l : list entry) :
  Forall (fun e => proper (marginExpansion e)) l ->
  StronglySorted margin_ge (Array_sort by_margin l).
Proof.
  induction 1 as [|x l Hx Hl IH]; simpl; [constructor|].
  apply insert_sorted_descending; trivial.
  eapply Permutation_Forall; [symmetry; apply Array_sort_perm|trivial].
Qed.

Lemma Array_sort_stable (v : number) (l : list entry) :
  Forall (fun e => proper (marginExpansion e)) l ->
  List.filter (margin_is v) (Array_sort by_margin l) = List.filter (margin_is v) l.
Proof.
  induction 1 as [|x l Hx Hl IH]; simpl; [reflexivity|].
  rewrite insert_sorted_filter; trivial.
  - simpl. now rewrite IH.
  - eapply Permutation_Forall; [symmetry; apply Array_sort_perm|trivial].
Qed.

Lemma num_ltb_irrefl (x : number) : num_ltb x x = false.
Proof.
  destruct x as [s|s| |s m e]; simpl; trivial;
    [now destruct s | apply Z.ltb_irrefl].
Qed.

Lemma head_is_greatest (x : entry) (l l' : list entry) (y : entry) :
  StronglySorted margin_ge (x :: l) ->
  Permutation (x :: l) (y :: l') ->
  num_ltb (marginExpansion x) (marginExpansion y) = false.
Proof.
  intros Hs Hp.
  assert (Hy : In y (x :: l)).
  { eapply Permutation_in; [symmetry; exact Hp|]. now left. }
  destruct Hy as [->|Hy]; [apply num_ltb_irrefl|].
  apply StronglySorted_inv in Hs as [_ Hx].
  rewrite List.Forall_forall in Hx. now apply Hx.
Qed.

(** A permutation that descends by margin expansion and keeps the entries
    of each margin expansion in their order is determined. *)
Lemma stable_descending_unique (l1 : list entry) :
  forall l2 : list entry,
    Forall (fun e => proper (marginExpansion e)) l1 ->
    Permutation l1 l2 ->
    StronglySorted margin_ge l1 -> StronglySorted margin_ge l2 ->
    (forall v, List.filter (margin_is v) l1 = List.filter (margin_is v) l2) ->
    l1 = l2.
Proof.
  induction l1 as [|x l1 IH]; intros l2 P Hp S1 S2 F.
  - now apply Permutation_nil in Hp.
  - destruct l2 as [|y l2]; [now apply Permutation_sym, Permutation_nil in Hp|].
    inversion P as [|? ? [Nx _] P1]; subst.
    assert (Py : proper (marginExpansion y)).
    { rewrite List.Forall_forall in P. apply P.
      eapply Permutation_in; [symmetry; exact Hp|]. now left. }
    destruct Py as [Ny _].
    pose proof (head_is_greatest x l1 l2 y S1 Hp) as Gxy.
    pose proof (head_is_greatest y l2 l1 x S2 (Permutation_sym Hp)) as Gyx.
    assert (E : x = y).
    { assert (Ex : margin_is (marginExpansion y) x = true)
        by (unfold margin_is, num_eqb; now rewrite Nx, Ny, Gxy, Gyx).
      assert (Ey : margin_is (marginExpansion y) y = true)
        by (unfold margin_is, num_eqb; now rewrite Ny, num_ltb_irrefl).
      pose proof (F (marginExpansion y)) as Fy. simpl in Fy.
      rewrite Ex, Ey in Fy. congruence. }
    subst y. f_equal. apply IH; trivial.
    + now apply Permutation_cons_inv in Hp.
    + now apply StronglySorted_inv in S1.
    + now apply StronglySorted_inv in S2.
    + intros v. specialize (F v). simpl in F.
      destruct (margin_is v x); congruence.
Qed.

(** Whatever the algorithm, a stable sort by the margin comparator ends in
    the list [Array_sort] builds. *)
Lemma Array_sort_unique (l sorted : list entry) :
  Forall (fun e => proper (marginExpansion e)) l ->
  Permutation l sorted ->
  StronglySorted margin_ge sorted ->
  (forall v, List.filter (margin_is v) sorted = List.filter (margin_is v) l) ->
  sorted = Array_sort by_margin l.
Proof.
  intros P Hp Hs Hf. apply stable_descending_unique; trivial.
  - eapply Permutation_Forall; [exact Hp|exact P].
  - rewrite <- Hp. symmetry. apply Array_sort_perm.
  - now apply Array_sort_descending.
  - intros v. rewrite Hf. symmetry. now apply Array_sort_stable.
Qed.

(** The sort in the render leaves [chartData] as it was exactly when it
    was in descending order already. *)
Lemma sort_keeps_sorted_only (l : list entry) :
  Forall (fun e => proper (marginExpansion e)) l ->
  snd (marginTop5 l) = l <-> StronglySorted margin_ge l.
Proof.
  intros P. simpl. split.
  - intros E. rewrite <- E. now apply Array_sort_descending.
  - intros S. symmetry. now apply Array_sort_unique.
Qed.

(** ** Strings *)

Lemma starts_with_spec (p s : jsstring) :
  starts_with p s = true <-> exists b, s = p ++ b.
Proof.
  revert s. induction p as [|c p IH]; intros s; simpl.
  - split; eauto.
  - destruct s as [|d s]; simpl.
    + split; [discriminate|]. intros [b Hb]. discriminate.
    + rewrite andb_true_iff, N.eqb_eq, IH. split.
      * intros [-> [b ->]]. eauto.
      * intros [b Hb]. injection Hb as -> ->. eauto.
Qed.

Lemma includes_spec (s x : jsstring) :
  includes s x = true <-> is_substring x s.
Proof.
  unfold is_substring. induction s as [|c s IH].
  - simpl. rewrite orb_false_r, starts_with_spec. split.
    + intros [b Hb]. exists [], b. exact Hb.
    + intros [a [b Hb]]. destruct a; [eauto|discriminate].
  - cbn [includes]. rewrite orb_true_iff, starts_with_spec, IH. split.
    + intros [[b Hb]|[a [b Hb]]].
      * exists [], b. exact Hb.
      * exists (c :: a), b. simpl. now rewrite Hb.
    + intros [a [b Hb]]. destruct a as [|d a]; simpl in Hb.
      * left. eauto.
      * right. injection Hb as -> ->. eauto.
Qed.

Lemma includes_any (s : jsstring) (tokens : list jsstring) :
  existsb (fun x => includes s x) tokens = true
  <-> exists t, In t tokens /\ is_substring t s.
Proof.
  rewrite existsb_exists. split; intros [t [Ht Hs]]; exists t; split; trivial;
    now apply includes_spec.
Qed.

Lemma remove_first_app (c : N) (a b : jsstring) :
  ~ In c a -> remove_first c (a ++ c :: b) = a ++ b.
Proof.
  induction a as [|d a IH]; simpl; intros H.
  - now rewrite N.eqb_refl.
  - destruct (N.eqb_spec d c) as [->|_]; [tauto|].
    rewrite IH; tauto.
Qed.

Lemma remove_first_absent (c : N) (s : jsstring) :
  ~ In c s -> remove_first c s = s.
Proof.
  induction s as [|d s IH]; simpl; intros H; trivial.
  destruct (N.eqb_spec d c) as [->|_]; [tauto|].
  rewrite IH; tauto.
Qed.

(** ** [normalizeYesNo] *)

(** C2, as stated, fails: "Partially" contains the yes token "y", so it is
    not passed through. *)
Lemma C2_partially_is_yes :
  normalizeYesNo (text "Partially") <> js "Partially".
Proof. vm_compute. discriminate. Qed.

(** C2 (amended): [normalizeYesNo] maps "Reduced" to "Yes", "Unchanged" to
    "No", the empty string to "Unknown" and "Partially" to "Yes"; a text such
    as "HOLD" that holds no token comes back in lower case with its first
    character in upper case ("Hold").  For every non-empty text of ASCII
    characters, the lower case of the text is searched for the tokens as
    substrings: a yes token gives "Yes"; failing that, a no token gives
    "No"; failing both, the lower-case text is returned with its first
    character capitalised. *)
Theorem C2_normalizeYesNo_by_substring :
  normalizeYesNo (text "Reduced") = js "Yes" /\
  normalizeYesNo (text "Unchanged") = js "No" /\
  normalizeYesNo (VStr []) = js "Unknown" /\
  normalizeYesNo (text "Partially") = js "Yes" /\
  normalizeYesNo (text "HOLD") = js "Hold" /\
  forall s : jsstring, s <> [] -> ascii_text s = true ->
    let low := toLowerCase s in
    ((exists t, In t yes_tokens /\ is_substring t low) ->
       normalizeYesNo (VStr s) = js "Yes") /\
    (~ (exists t, In t yes_tokens /\ is_substring t low) ->
     (exists t, In t no_tokens /\ is_substring t low) ->
       normalizeYesNo (VStr s) = js "No") /\
    (~ (exists t, In t yes_tokens /\ is_substring t low) ->
     ~ (exists t, In t no_tokens /\ is_substring t low) ->
       normalizeYesNo (VStr s) = toUpperCase (charAt0 low) ++ slice1 low).
Proof.
  do 5 (split; [vm_compute; reflexivity|]).
  intros s Hs _ low. unfold normalizeYesNo.
  assert (T : ToBoolean (VStr s) = true) by (destruct s; [congruence|reflexivity]).
  rewrite T. cbn [negb ToString]. fold low.
  pose proof (includes_any low yes_tokens) as Y.
  pose proof (includes_any low no_tokens) as N.
  destruct (existsb (fun x => includes low x) yes_tokens);
    destruct (existsb (fun x => includes low x) no_tokens);
    repeat split; intros; trivial;
    try (exfalso; intuition congruence).
Qed.

Lemma C2_normalizeYesNo_witness :
  js "Reduced" <> [] /\
  ascii_text (js "Reduced") = true /\
  (exists t, In t yes_tokens /\ is_substring t (toLowerCase (js "Reduced"))) /\
  normalizeYesNo (VStr (js "Reduced")) = js "Yes".
Proof.
  assert (H0 : js "Reduced" <> []) by discriminate.
  assert (H1 : exists t, In t yes_tokens /\ is_substring t (toLowerCase (js "Reduced"))).
  { exists (js "reduced"). split.
    - vm_compute. tauto.
    - exists [], []. reflexivity. }
  assert (H2 : ascii_text (js "Reduced") = true) by reflexivity.
  split; [exact H0|]. split; [exact H2|]. split; [exact H1|].
  destruct C2_normalizeYesNo_by_substring as (_ & _ & _ & _ & _ & G).
  exact (proj1 (G (js "Reduced") H0 H2) H1).
Defined.

(** C10: a falsy cell (the numbers [0], [-0] and [NaN], [false], [null],
    an absent cell, the empty text) gives "Unknown"; the number [0] does,
    though the text "0" holds a no token and gives "No". *)
Theorem C10_falsy_cell_is_unknown :
  (forall v : value, ToBoolean v = false -> normalizeYesNo v = js "Unknown") /\
  normalizeYesNo (VNum zero) = js "Unknown" /\
  normalizeYesNo (VBool false) = js "Unknown" /\
  normalizeYesNo (text "0") = js "No".
Proof.
  split.
  - intros v Hv. unfold normalizeYesNo. now rewrite Hv.
  - repeat apply conj; vm_compute; reflexivity.
Qed.

Lemma C10_falsy_cell_witness :
  ToBoolean (VNum (of_Z 0)) = false /\ normalizeYesNo (VNum (of_Z 0)) = js "Unknown".
Proof.
  assert (H : ToBoolean (VNum (of_Z 0)) = false) by reflexivity.
  split; [exact H|].
  exact (proj1 C10_falsy_cell_is_unknown (VNum (of_Z 0)) H).
Defined.

(** ** The fields resolved through aliases *)

(** C4, as stated, fails: a record with none of the name aliases gets the
    name "—" (an em dash), not the empty string. *)
Lemma C4_unnamed_is_em_dash :
  first_truthy (∅ : gmap jsstring value) name_aliases = None /\
  name (chart_entry ∅) = VStr EM_DASH /\
  name (chart_entry ∅) <> VStr [].
Proof. repeat apply conj; try reflexivity. vm_compute. discriminate. Qed.

(** C4 (amended): for every record, the name of its entry is the value of
    the first alias, in the order "Company name", "Company Name", "Name",
    "company", whose value in the record is truthy (present and not empty),
    and the em dash "—" when there is none; the sector resolves in the same
    way with the default "Other", and the revenue stream with the default
    empty string. *)
Theorem C4_fields_resolve_by_alias (r : gmap jsstring value) :
  name (chart_entry r) = default (VStr EM_DASH) (first_truthy r name_aliases) /\
  sector (chart_entry r) = default (text "Other") (first_truthy r sector_aliases) /\
  revenueStream (chart_entry r) = default (VStr []) (first_truthy r stream_aliases).
Proof.
  unfold chart_entry, or_else, name_aliases, sector_aliases, stream_aliases; simpl.
  repeat split; repeat (destruct (ToBoolean _); trivial).
Qed.

(** ** [parsePercent] *)

(** What [parsePercent] does with the text of a value it does on the text
    itself. *)
Lemma parsePercent_of_text (s : jsstring) :
  (let n := parseFloat (trim (remove_first 37 s)) in if isNaN n then zero else n)
  = parsePercent (VStr s).
Proof. destruct s as [|c s]; [vm_compute; reflexivity|reflexivity]. Qed.

(** C6, as stated, fails: in "%5" the percent sign is not at the end, and
    it is removed all the same; the result is [5], not [0]. *)
Lemma C6_leading_percent_is_stripped :
  parsePercent (text "%5") <> coercePercent_spec (text "%5").
Proof. vm_compute. discriminate. Qed.

(** C6 (amended): for every raw value: on [undefined], [null] and the
    empty text [parsePercent] gives [0]; on any other value it works on the
    text [String(v)] of the value: it removes the first percent sign of the
    text, wherever it stands (so a single trailing one is stripped), trims
    the rest and reads it as a float, and gives [0] when the rest does not
    start with a number; the result is never [NaN].  In particular "12.5%"
    gives [12.5], the empty text gives [0], "n/a" gives [0] and "%5" gives
    [5]; the booleans give [0], and the numbers [12.5] and [NaN] give
    [12.5] and [0]. *)
Theorem C6_parsePercent_first_percent_sign :
  parsePercent (text "12.5%") = num 25 (-1) /\
  parsePercent (VStr []) = zero /\
  parsePercent (text "n/a") = zero /\
  parsePercent (text "%5") = of_Z 5 /\
  parsePercent VUndefined = zero /\
  parsePercent VNull = zero /\
  (forall b : bool, parsePercent (VBool b) = zero) /\
  parsePercent (VNum (num 25 (-1))) = num 25 (-1) /\
  parsePercent (VNum NaN) = zero /\
  (forall v : value, v <> VUndefined -> v <> VNull ->
     parsePercent v = parsePercent (VStr (ToString v))) /\
  (forall v : value, isNaN (parsePercent v) = false) /\
  (forall s : jsstring, ~ In 37%N s ->
     parsePercent (VStr s)
     = let n := parseFloat (trim s) in if isNaN n then zero else n) /\
  (forall a b : jsstring, ~ In 37%N a ->
     parsePercent (VStr (a ++ 37%N :: b))
     = let n := parseFloat (trim (a ++ b)) in if isNaN n then zero else n).
Proof.
  do 6 (split; [vm_compute; reflexivity|]).
  split; [intros [|]; vm_compute; reflexivity|].
  do 2 (split; [vm_compute; reflexivity|]).
  split; [|split; [|split]].
  - intros v H1 H2. destruct v as [| |b|x|s]; try congruence.
    + destruct b; vm_compute; reflexivity.
    + exact (parsePercent_of_text (ToString (VNum x))).
    + reflexivity.
  - intros v. apply parsePercent_proper.
  - intros s Hs. destruct s as [|c s]; [vm_compute; reflexivity|].
    unfold parsePercent. cbn [ToString]. now rewrite remove_first_absent.
  - intros a b Ha.
    assert (E : exists c r, a ++ 37%N :: b = c :: r) by (destruct a; simpl; eauto).
    destruct E as [c [r E]].
    unfold parsePercent. cbn [ToString].
    rewrite remove_first_app by trivial. now rewrite E.
Qed.

Lemma C6_parsePercent_witness :
  ~ In 37%N (js "12.5") /\
  parsePercent (VStr (js "12.5" ++ 37%N :: [])) = num 25 (-1) /\
  VBool true <> VUndefined /\ VBool true <> VNull /\
  parsePercent (VBool true) = parsePercent (text "true").
Proof.
  assert (H : ~ In 37%N (js "12.5")) by (vm_compute; intuition discriminate).
  assert (U : VBool true <> VUndefined) by discriminate.
  assert (N : VBool true <> VNull) by discriminate.
  destruct C6_parsePercent_first_percent_sign
    as (_ & _ & _ & _ & _ & _ & _ & _ & _ & T & _ & _ & G).
  split; [exact H|]. split.
  - rewrite (G (js "12.5") [] H). vm_compute. reflexivity.
  - split; [exact U|]. split; [exact N|]. exact (T (VBool true) U N).
Defined.

(** ** [parseValues] *)

Lemma lookup_map {A B : Type} (f : A -> B) (l : list A) (j : nat) :
  map f l !! j = option_map f (l !! j).
Proof.
  revert j. induction l as [|x l IH]; intros [|j]; simpl; auto.
Qed.

Lemma str_eqb_eq (a b : jsstring) : str_eqb a b = true <-> a = b.
Proof.
  revert b. induction a as [|x a IH]; intros [|y b]; simpl; try easy.
  rewrite andb_true_iff, N.eqb_eq, IH. split.
  - now intros [-> ->].
  - intros E. now injection E.
Qed.

Lemma str_eqb_neq (a b : jsstring) : a <> b -> str_eqb a b = false.
Proof.
  intros H. destruct (str_eqb a b) eqn:E; trivial.
  apply str_eqb_eq in E. contradiction.
Qed.

Lemma setter_taken (b : bool) (k : jsstring) :
  b && str_eqb k PROTO = true -> k = PROTO.
Proof. intros H. apply andb_prop in H as [_ H]. now apply str_eqb_eq. Qed.

Lemma assign_cells_other (hs : list jsstring) (r : list value) (i : nat)
    (b : bool) (obj : gmap jsstring value) (h : jsstring) :
  (forall j, hs !! j <> Some h) -> assign_cells hs r i b obj !! h = obj !! h.
Proof.
  revert i b obj. induction hs as [|k hs IH]; intros i b obj H;
    cbn [assign_cells]; trivial.
  assert (T : forall j, hs !! j <> Some h) by (intros j; apply (H (S j))).
  destruct (b && str_eqb k PROTO).
  - now apply IH.
  - rewrite IH by trivial. apply lookup_insert_ne. intros ->. now apply (H 0%nat).
Qed.

Lemma assign_cells_keys (hs : list jsstring) (r : list value) (i : nat)
    (b : bool) (obj : gmap jsstring value) (k : jsstring) :
  is_Some (assign_cells hs r i b obj !! k) -> In k hs \/ is_Some (obj !! k).
Proof.
  revert i b obj. induction hs as [|h hs IH]; intros i b obj H;
    cbn [assign_cells] in H; [now right|].
  destruct (b && str_eqb h PROTO).
  - apply IH in H as [H|H]; [left; now right|now right].
  - apply IH in H as [H|H]; [left; now right|].
    destruct (decide (h = k)) as [->|N]; [left; now left|].
    rewrite lookup_insert_ne in H by trivial. now right.
Qed.

Lemma assign_cells_has (hs : list jsstring) (r : list value) (i : nat)
    (b : bool) (obj : gmap jsstring value) (h : jsstring) :
  h <> PROTO ->
  In h hs \/ is_Some (obj !! h) -> is_Some (assign_cells hs r i b obj !! h).
Proof.
  intros Hp. revert i b obj. induction hs as [|k hs IH]; intros i b obj H;
    cbn [assign_cells].
  - destruct H as [[]|H]. exact H.
  - destruct (b && str_eqb k PROTO) eqn:E.
    + apply setter_taken in E. subst k. apply IH.
      destruct H as [[H|H]|H]; [congruence|now left|now right].
    + apply IH. destruct (decide (k = h)) as [->|N].
      * right. rewrite lookup_insert_eq. eauto.
      * destruct H as [[H|H]|H]; [congruence|now left|right].
        now rewrite lookup_insert_ne.
Qed.

Lemma assign_cells_dom (hs : list jsstring) (r : list value) (i : nat)
    (b : bool) (obj : gmap jsstring value) :
  ~ In PROTO hs ->
  dom (assign_cells hs r i b obj) = list_to_set hs ∪ dom obj.
Proof.
  revert i b obj. induction hs as [|h hs IH]; intros i b obj H;
    cbn [assign_cells].
  - simpl. now rewrite (left_id_L ∅ (∪)).
  - rewrite (str_eqb_neq h PROTO), andb_false_r
      by (intros ->; apply H; now left).
    rewrite IH by (intros C; apply H; now right).
    rewrite dom_insert_L, (assoc_L (∪)). simpl. f_equal. apply (comm_L (∪)).
Qed.

Lemma assign_cells_last (hs : list jsstring) (r : list value) (i0 : nat)
    (b : bool) (obj : gmap jsstring value) (i : nat) (h : jsstring) :
  h <> PROTO ->
  hs !! i = Some h ->
  (forall i', (i < i')%nat -> hs !! i' <> Some h) ->
  assign_cells hs r i0 b obj !! h = Some (cell r (i0 + i)).
Proof.
  intros Hp. revert i0 b obj i.
  induction hs as [|k hs IH]; intros i0 b obj i Hi Hlast.
  - destruct i; discriminate.
  - cbn [assign_cells]. destruct i as [|i]; simpl in Hi.
    + injection Hi as ->.
      rewrite (str_eqb_neq h PROTO Hp), andb_false_r.
      rewrite assign_cells_other.
      * rewrite lookup_insert_eq. now rewrite Nat.add_0_r.
      * intros j. apply (Hlast (S j)). lia.
    + assert (L : forall i', (i < i')%nat -> hs !! i' <> Some h)
        by (intros i' Hi'; apply (Hlast (S i')); lia).
      destruct (b && str_eqb k PROTO);
        rewrite (IH (S i0) _ _ i Hi L); f_equal; f_equal; lia.
Qed.

Lemma cell_take (r : list value) (n i : nat) :
  (i < n)%nat -> cell (take n r) i = cell r i.
Proof. intros H. unfold cell. now rewrite lookup_take_lt. Qed.

Lemma assign_cells_take (hs : list jsstring) (r : list value) (i : nat)
    (b : bool) (obj : gmap jsstring value) :
  assign_cells hs (take (i + length hs) r) i b obj = assign_cells hs r i b obj.
Proof.
  revert i b obj. induction hs as [|h hs IH]; intros i b obj;
    cbn [assign_cells length]; trivial.
  rewrite cell_take by lia.
  replace (i + S (length hs))%nat with (S i + length hs)%nat by lia.
  destruct (b && str_eqb h PROTO); apply IH.
Qed.

(** C7, as stated, fails: under the header [__proto__] the assignment
    [obj[h] = v] runs the setter of [Object.prototype] and makes no key; the
    record of the row is empty, and its keys are not the header names. *)
Lemma C7_proto_header_makes_no_key :
  exists obj : gmap jsstring value,
    parseValues proto_grid = [obj] /\
    obj !! PROTO = None /\
    dom obj <> list_to_set (map (fun h => trim (ToString h)) [text "__proto__"]).
Proof.
  exists ∅. split; [vm_compute; reflexivity|]. split; [reflexivity|].
  intros E. rewrite dom_empty_L in E.
  assert (H : PROTO ∈ (∅ : gset jsstring)).
  { rewrite E. apply elem_of_list_to_set, list_elem_of_In. now left. }
  now apply not_elem_of_empty in H.
Qed.

(** C7 (amended): for every grid with a header row, the keys of the record
    of every other row are trimmed header names, and every trimmed header
    name other than [__proto__] is a key; when no header is [__proto__] the
    keys are exactly the trimmed header names.  Under a header other than
    [__proto__] (the last column of that name) the record holds the cell of
    the row in that column, and the empty string when the row is too short
    to have one; the cells of a row beyond the last header make no
    difference to its record. *)
Theorem C7_parseValues_pads_and_truncates
    (header_row : list value) (data_rows : list (list value))
    (j : nat) (r : list value) :
  data_rows !! j = Some r ->
  let headers := map (fun h => trim (ToString h)) header_row in
  exists obj : gmap jsstring value,
    parseValues (Some (header_row :: data_rows)) !! j = Some obj /\
    (forall k, is_Some (obj !! k) -> In k headers) /\
    (forall h, In h headers -> h <> PROTO -> is_Some (obj !! h)) /\
    (~ In PROTO headers -> dom obj = list_to_set headers) /\
    (forall (i : nat) (h : jsstring),
       headers !! i = Some h ->
       h <> PROTO ->
       (forall i', (i < i')%nat -> headers !! i' <> Some h) ->
       (forall v, r !! i = Some v -> v <> VUndefined -> obj !! h = Some v) /\
       ((length r <= i)%nat -> obj !! h = Some (VStr []))) /\
    parseValues (Some [header_row; take (length header_row) r]) = [obj].
Proof.
  intros Hr headers. exists (assign_cells headers r 0 true ∅).
  split; [|split; [|split; [|split; [|split]]]].
  - simpl. fold headers. rewrite lookup_map, Hr. reflexivity.
  - intros k Hk. apply assign_cells_keys in Hk as [Hk|[x Hx]]; trivial.
    rewrite lookup_empty in Hx. discriminate.
  - intros h Hh Hp. apply assign_cells_has; trivial. now left.
  - intros Hp. rewrite assign_cells_dom, dom_empty_L by trivial.
    apply (right_id_L ∅ (∪)).
  - intros i h Hi Hp Hlast.
    pose proof (assign_cells_last headers r 0 true ∅ i h Hp Hi Hlast) as E.
    simpl in E. rewrite E. unfold cell. split.
    + intros v Hv Hu. rewrite Hv. destruct v; congruence.
    + intros Hlen. now rewrite lookup_ge_None_2.
  - simpl. fold headers. f_equal.
    pose proof (assign_cells_take headers r 0 true ∅) as E. simpl in E.
    unfold headers in E at 2. rewrite length_map in E. exact E.
Qed.

Lemma C7_parseValues_witness :
  [[text "Acme"]; [text "Globex"; text "GBX"; text "extra"]] !! 0%nat = Some [text "Acme"] /\
  exists obj : gmap jsstring value,
    parseValues ragged_grid !! 0%nat = Some obj /\
    dom obj = list_to_set [js "Company name"; js "Symbol"] /\
    obj !! js "Company name" = Some (text "Acme") /\
    obj !! js "Symbol" = Some (VStr []).
Proof.
  assert (H : [[text "Acme"]; [text "Globex"; text "GBX"; text "extra"]] !! 0%nat
              = Some [text "Acme"]) by reflexivity.
  split; [exact H|].
  destruct (C7_parseValues_pads_and_truncates
              [text " Company name "; text "Symbol"] _ 0 _ H)
    as (obj & E & _ & _ & D & L & _).
  exists obj. split; [exact E|]. split.
  - rewrite D; [f_equal|]. vm_compute. intuition discriminate.
  - split.
    + refine (proj1 (L 0%nat (js "Company name") _ _ _) (text "Acme") _ _).
      * vm_compute. reflexivity.
      * discriminate.
      * intros [|[|i']] Hi; [lia| |]; vm_compute; discriminate.
      * reflexivity.
      * discriminate.
    + refine (proj2 (L 1%nat (js "Symbol") _ _ _) _).
      * vm_compute. reflexivity.
      * discriminate.
      * intros [|[|i']] Hi; [lia|lia|]. vm_compute. discriminate.
      * simpl. lia.
Defined.

(** ** [totals] *)

Lemma sum_field_fold (f : entry -> number) (l : list entry) (a : number) :
  Forall (fun e => proper (f e)) l ->
  in_range a -> a <> S754_zero true ->
  fold_left (fun a b => add a (or_zero (f b))) l a = fold_left add (map f l) a.
Proof.
  intros Hl. revert a. induction Hl as [|x l [Hn Hx] Hl IH]; intros a Ha Hz; simpl.
  - reflexivity.
  - rewrite add_or_zero by trivial.
    apply IH; [now apply add_in_range | now apply add_not_negative_zero].
Qed.

Lemma sum_field_proper (f : entry -> number) (l : list entry) :
  Forall (fun e => proper (f e)) l ->
  sum_field f l = fold_left add (map f l) zero.
Proof.
  intros Hl. unfold sum_field. apply sum_field_fold; trivial.
  - exact I.
  - discriminate.
Qed.

(** C9, as stated, fails: the average is the sum in double arithmetic,
    taken from the left, divided by the count, and that is not always the
    arithmetic mean.  The revenue growths [1e16], [1], [-1e16], [1] have the
    mean [0.5]; the second one is lost in the rounding of the sum, and
    [totals] gives [0.25]. *)
Lemma C9_average_is_not_the_mean :
  let entries := chartData (parseValues cancelling_grid) in
  let growths := map revenueGrowth entries in
  growths = [of_Z 10000000000000000; of_Z 1; of_Z (-10000000000000000); of_Z 1] /\
  arithmetic_mean (num 1 (-1)) growths /\
  avgRevenueGrowth (totals entries) = num 1 (-2) /\
  ~ arithmetic_mean (avgRevenueGrowth (totals entries)) growths.
Proof.
  split; [vm_compute; reflexivity|].
  split; [repeat apply conj; vm_compute; reflexivity|].
  split; [vm_compute; reflexivity|].
  intros (_ & _ & E). vm_compute in E. discriminate.
Qed.

(** C9 (amended): for the entries of every sequence of rows, [totals]
    counts the entries, and gives as average revenue growth (and as average
    profit growth) [0] when there is no entry and otherwise the sum of the
    entries' revenue growth (profit growth), added up from the left in
    double arithmetic with every partial sum rounded, divided by their
    number; the guard [||0] on each term changes nothing. *)
Theorem C9_totals_divide_left_sums (rows : list (gmap jsstring value)) :
  let entries := chartData rows in
  count (totals entries) = length entries /\
  avgRevenueGrowth (totals entries)
  = match entries with
    | [] => zero
    | _ => div (left_sum (map revenueGrowth entries)) (of_nat (length entries))
    end /\
  avgProfitGrowth (totals entries)
  = match entries with
    | [] => zero
    | _ => div (left_sum (map profitGrowth entries)) (of_nat (length entries))
    end.
Proof.
  intros entries.
  pose proof (chartData_proper rows) as P. fold entries in P.
  assert (R : Forall (fun e => proper (revenueGrowth e)) entries)
    by (eapply Forall_impl; [exact P|]; intros e H; apply H).
  assert (G : Forall (fun e => proper (profitGrowth e)) entries)
    by (eapply Forall_impl; [exact P|]; intros e H; apply H).
  unfold totals, left_sum; simpl count; simpl avgRevenueGrowth; simpl avgProfitGrowth.
  rewrite !sum_field_proper by trivial.
  split; [reflexivity|]. destruct entries; split; reflexivity.
Qed.

(** ** The top of the list by margin expansion *)

(** C8: for the entries of every sequence of rows and every [n], the top
    [n] is the first [n] entries of the array sorted by the comparator (the
    component shows the top 5); the sorted array holds the same entries, in
    descending order of margin expansion, and the entries of any one margin
    expansion stand in it in the order they had before.  For the entries A,
    B, C with the margin expansions 5, 5, 3 the top 2 is A, B, in that
    order. *)
Theorem C8_top_is_stable_descending_prefix
    (n : nat) (rows : list (gmap jsstring value)) :
  let entries := chartData rows in
  let sorted := Array_sort by_margin entries in
  fst (sort_and_slice n entries) = take n sorted /\
  fst (marginTop5 entries) = take 5 sorted /\
  Permutation entries sorted /\
  StronglySorted margin_ge sorted /\
  (forall v : number,
     List.filter (margin_is v) sorted = List.filter (margin_is v) entries) /\
  map name (fst (sort_and_slice 2 (chartData (parseValues tie_grid))))
  = [text "A"; text "B"].
Proof.
  intros entries sorted.
  assert (P : Forall (fun e => proper (marginExpansion e)) entries).
  { eapply Forall_impl; [apply chartData_proper|]. intros e H. apply H. }
  split; [reflexivity|]. split; [reflexivity|].
  split; [symmetry; apply Array_sort_perm|].
  split; [now apply Array_sort_descending|].
  split; [intros v; now apply Array_sort_stable|].
  vm_compute. reflexivity.
Qed.

(** C3: the claim holds of a pure function and fails on the code.  The
    render sorts the [chartData] array itself: with the companies A (3%)
    and B (5%) in the sheet, [chartData] is [A, B] before the list is
    drawn and [B, A] after. *)
Theorem C3_sort_reorders_chartData :
  let entries := chartData (parseValues rising_grid) in
  map name entries = [text "A"; text "B"] /\
  map name (snd (marginTop5 entries)) = [text "B"; text "A"] /\
  snd (marginTop5 entries) <> entries.
Proof.
  split; [vm_compute; reflexivity|]. split; [vm_compute; reflexivity|].
  vm_compute. discriminate.
Qed.

(** ** The end-to-end scenario *)

(** C5: the grid of the scenario gives the entries Acme (market cap
    [1.2e9], revenue growth [15], debt reduced "Yes") and Globex (market
    cap [5e8], revenue growth [-3.5], debt reduced "No"); [totals] counts
    2 entries with an average revenue growth of [5.75]. *)
Theorem C5_scenario :
  let entries := chartData (parseValues scenario_grid) in
  map (fun e => (name e, marketCap e, revenueGrowth e, debtReduced e)) entries
  = [ (text "Acme", of_Z 1200000000, of_Z 15, js "Yes");
      (text "Globex", of_Z 500000000, num (-7) (-1), js "No") ] /\
  count (totals entries) = 2%nat /\
  avgRevenueGrowth (totals entries) = num 23 (-2).
Proof. repeat apply conj; vm_compute; reflexivity. Qed.

(** ** [parseNumber] *)

(** C1: the claim holds of [parsePercent] and fails on [parseNumber].  A
    cell "-" matches the pattern of a magnitude, [parseFloat] reads no
    number in it, and the [NaN] is returned as it is: the market cap of
    the entry is [NaN].  The inputs that match no pattern do give [0]. *)
Theorem C1_parseNumber_returns_NaN :
  parseNumber (text "-") = NaN /\
  isNaN (marketCap (chart_entry {[ js "Market cap" := text "-" ]})) = true /\
  parseNumber (VStr []) = zero /\
  parseNumber (text "abc") = zero /\
  (forall v : value, isNaN (parsePercent v) = false).
Proof.
  do 4 (split; [vm_compute; reflexivity|]).
  intros v. apply parsePercent_proper.
Qed.

(** ** More on the texts *)

Lemma trimStart_head (s : jsstring) :
  match trimStart s with [] => True | c :: _ => is_space c = false end.
Proof.
  induction s as [|c s IH]; simpl; trivial.
  destruct (is_space c) eqn:E; trivial.
Qed.

Lemma trimStart_suffix (s : jsstring) : exists a, s = a ++ trimStart s.
Proof.
  induction s as [|c s [a IH]]; simpl.
  - now exists [].
  - destruct (is_space c).
    + exists (c :: a). simpl. now f_equal.
    + now exists [].
Qed.

Lemma trimStart_id (s : jsstring) :
  match s with [] => True | c :: _ => is_space c = false end -> trimStart s = s.
Proof. destruct s as [|c s]; simpl; trivial. now intros ->. Qed.

Lemma trim_trimmed (s : jsstring) : trimmed (trim s).
Proof.
  unfold trimmed, trim, trimEnd. split.
  - destruct (trimStart_suffix (rev (trimStart s))) as [a E].
    apply (f_equal (@rev N)) in E. rewrite rev_involutive, rev_app_distr in E.
    pose proof (trimStart_head s) as H.
    destruct (rev (trimStart (rev (trimStart s)))) as [|c r]; trivial.
    rewrite E in H. exact H.
  - rewrite rev_involutive. apply trimStart_head.
Qed.

Lemma trim_id (s : jsstring) : trimmed s -> trim s = s.
Proof.
  intros [H1 H2]. unfold trim, trimEnd.
  rewrite (trimStart_id s H1), (trimStart_id (rev s) H2). apply rev_involutive.
Qed.

Lemma lower_unit_idem (c : N) : lower_unit (lower_unit c) = lower_unit c.
Proof.
  unfold lower_unit.
  destruct ((65 <=? c) && (c <=? 90))%N eqn:E; [|now rewrite E].
  destruct ((65 <=? c + 32) && (c + 32 <=? 90))%N eqn:F; trivial.
  apply andb_prop in E as [E1 E2], F as [F1 F2].
  apply N.leb_le in E1, E2, F1, F2. lia.
Qed.

Lemma lower_upper_unit (c : N) : lower_unit (upper_unit c) = lower_unit c.
Proof.
  unfold lower_unit, upper_unit.
  destruct ((97 <=? c) && (c <=? 122))%N eqn:E.
  - apply andb_prop in E as [E1 E2]. apply N.leb_le in E1, E2.
    replace ((65 <=? c - 32) && (c - 32 <=? 90))%N with true
      by (symmetry; apply andb_true_intro; split; apply N.leb_le; lia).
    replace ((65 <=? c) && (c <=? 90))%N with false
      by (symmetry; apply andb_false_iff; right; apply N.leb_gt; lia).
    lia.
  - reflexivity.
Qed.

Lemma toLowerCase_idem (s : jsstring) : toLowerCase (toLowerCase s) = toLowerCase s.
Proof.
  unfold toLowerCase. rewrite map_map. apply map_ext. apply lower_unit_idem.
Qed.

(** ** More on [normalizeYesNo] *)

Lemma capitalize_lower (low : jsstring) :
  toLowerCase low = low ->
  toLowerCase (toUpperCase (charAt0 low) ++ slice1 low) = low.
Proof.
  destruct low as [|c r]; simpl; trivial.
  intros E. injection E as E1 E2.
  rewrite lower_upper_unit, E1. f_equal. exact E2.
Qed.

(** X1: [normalizeYesNo] gives "Unknown" for the falsy cells and for no
    other cell: a text that reads "Unknown" (in any case) holds the no
    token "n" and gives "No". *)
Theorem X1_unknown_iff_falsy (v : value) :
  normalizeYesNo v = js "Unknown" <-> ToBoolean v = false.
Proof.
  split.
  - unfold normalizeYesNo. destruct (ToBoolean v); trivial. cbn [negb].
    set (low := toLowerCase (ToString v)).
    destruct (existsb (fun x => includes low x) yes_tokens); [discriminate|].
    destruct (existsb (fun x => includes low x) no_tokens) eqn:E; [discriminate|].
    intros H. exfalso.
    destruct low as [|c r]; [discriminate|].
    simpl in H. injection H as _ Hr. subst r.
    assert (T : existsb (fun x => includes (c :: js "nknown") x) no_tokens = true).
    { apply existsb_exists. exists (js "n"). split.
      - simpl. tauto.
      - apply includes_spec. exists [c], (js "known"). reflexivity. }
    assert (X : true = false) by (rewrite <- T; exact E).
    discriminate.
  - intros H. unfold normalizeYesNo. now rewrite H.
Qed.

(** X2: on a non-empty text of ASCII characters [normalizeYesNo] is
    idempotent: what it returns is classified as itself. *)
Theorem X2_normalizeYesNo_idempotent (s : jsstring) :
  s <> [] ->
  ascii_text s = true ->
  normalizeYesNo (VStr (normalizeYesNo (VStr s))) = normalizeYesNo (VStr s).
Proof.
  intros Hs _. unfold normalizeYesNo at 2 3.
  assert (T : ToBoolean (VStr s) = true) by (destruct s; [congruence|reflexivity]).
  rewrite T. cbn [negb ToString].
  set (low := toLowerCase s).
  destruct (existsb (fun x => includes low x) yes_tokens) eqn:Y;
    [vm_compute; reflexivity|].
  destruct (existsb (fun x => includes low x) no_tokens) eqn:F;
    [vm_compute; reflexivity|].
  assert (L : toLowerCase low = low) by apply toLowerCase_idem.
  pose proof (capitalize_lower low L) as C.
  set (r := toUpperCase (charAt0 low) ++ slice1 low) in *.
  assert (R : ToBoolean (VStr r) = true).
  { destruct s as [|c0 s0]; [congruence|]. reflexivity. }
  unfold normalizeYesNo. rewrite R. cbn [negb ToString]. rewrite C.
  fold low. now rewrite Y, F.
Qed.

Lemma X2_normalizeYesNo_idempotent_witness :
  js "Hold" <> [] /\
  ascii_text (js "Hold") = true /\
  normalizeYesNo (VStr (normalizeYesNo (VStr (js "Hold")))) = normalizeYesNo (VStr (js "Hold")).
Proof.
  assert (H : js "Hold" <> []) by discriminate.
  assert (A : ascii_text (js "Hold") = true) by reflexivity.
  split; [exact H|]. split; [exact A|].
  exact (X2_normalizeYesNo_idempotent (js "Hold") H A).
Defined.

(** X3: every text that holds the letter y (in either case) or the digit
    1 is classified "Yes", whatever else it says. *)
Theorem X3_y_or_1_is_yes (s : jsstring) :
  In 121%N s \/ In 89%N s \/ In 49%N s ->
  normalizeYesNo (VStr s) = js "Yes".
Proof.
  intros H.
  assert (Hs : ToBoolean (VStr s) = true).
  { destruct s; [simpl in H; tauto|reflexivity]. }
  unfold normalizeYesNo. rewrite Hs. cbn [negb ToString].
  assert (G : exists c, In c [121%N; 49%N] /\ In c (toLowerCase s)).
  { destruct H as [H|[H|H]].
    - exists 121%N. split; [simpl; tauto|]. apply (in_map lower_unit) in H. exact H.
    - exists 121%N. split; [simpl; tauto|]. apply (in_map lower_unit) in H. exact H.
    - exists 49%N. split; [simpl; tauto|]. apply (in_map lower_unit) in H. exact H. }
  destruct G as [c [Hc Hin]].
  assert (E : existsb (fun x => includes (toLowerCase s) x) yes_tokens = true).
  { apply includes_any. exists [c]. split.
    - simpl in Hc. destruct Hc as [<-|[<-|[]]]; simpl; tauto.
    - apply in_split in Hin as [a [b ->]]. now exists a, b. }
  now rewrite E.
Qed.

Lemma X3_y_or_1_is_yes_witness :
  (In 121%N (js "Maybe later") \/ In 89%N (js "Maybe later") \/ In 49%N (js "Maybe later")) /\
  normalizeYesNo (VStr (js "Maybe later")) = js "Yes".
Proof.
  assert (H : In 121%N (js "Maybe later") \/ In 89%N (js "Maybe later")
              \/ In 49%N (js "Maybe later")).
  { left. vm_compute. tauto. }
  split; [exact H|]. exact (X3_y_or_1_is_yes (js "Maybe later") H).
Defined.

(** ** More on [parseNumber] *)

Ltac unit_classes :=
  unfold is_numeric_unit, is_suffix_unit, is_space, is_digit in *;
  rewrite ?orb_true_iff, ?andb_true_iff, ?orb_false_iff, ?andb_false_iff,
    ?N.leb_le, ?N.eqb_eq, ?N.leb_gt, ?N.eqb_neq in *;
  lia.

Lemma numeric_not_space (c : N) : is_numeric_unit c = true -> is_space c = false.
Proof. intros H. unit_classes. Qed.

Lemma suffix_not_space (c : N) : is_suffix_unit c = true -> is_space c = false.
Proof. intros H. unit_classes. Qed.

Lemma suffix_not_numeric (c : N) : is_suffix_unit c = true -> is_numeric_unit c = false.
Proof. intros H. unit_classes. Qed.

Lemma space_not_numeric (c : N) : is_space c = true -> is_numeric_unit c = false.
Proof. intros H. unit_classes. Qed.

Lemma span_app (p : N -> bool) (a r : jsstring) :
  forallb p a = true ->
  match r with [] => True | c :: _ => p c = false end ->
  span p (a ++ r) = (a, r).
Proof.
  intros Ha Hr. induction a as [|x a IH]; simpl in *.
  - destruct r as [|c r]; simpl; trivial. now rewrite Hr.
  - apply andb_prop in Ha as [Hx Ha]. rewrite Hx, (IH Ha). reflexivity.
Qed.

Lemma span_forallb (p : N -> bool) (s : jsstring) :
  forallb p (fst (span p s)) = true.
Proof.
  induction s as [|c s IH]; simpl; trivial.
  destruct (p c) eqn:E; simpl; trivial.
  destruct (span p s) as [a b]. simpl in *. now rewrite E.
Qed.

Lemma strip_currency_id (s : jsstring) :
  (forall c, In c s -> c <> 36%N /\ c <> 44%N) -> strip_currency s = s.
Proof.
  unfold strip_currency. induction s as [|c s IH]; intros H; simpl; trivial.
  destruct (H c (or_introl eq_refl)) as [H1 H2].
  apply N.eqb_neq in H1, H2. rewrite H1, H2. simpl. f_equal.
  apply IH. intros d Hd. apply H. now right.
Qed.

Lemma strip_currency_idem (s : jsstring) :
  strip_currency (strip_currency s) = strip_currency s.
Proof.
  unfold strip_currency. induction s as [|c s IH]; simpl; trivial.
  destruct (negb ((c =? 36) || (c =? 44))%N) eqn:E; simpl; trivial.
  now rewrite E, IH.
Qed.

Lemma magnitude_text_plain (t : jsstring) :
  (forall c, In c t -> is_numeric_unit c = true \/ is_space c = true
                       \/ is_suffix_unit c = true) ->
  strip_currency t = t.
Proof.
  intros H. apply strip_currency_id. intros c Hc.
  destruct (H c Hc) as [G|[G|G]]; unit_classes.
Qed.

Lemma match_magnitude_plain (d : jsstring) :
  d <> [] -> forallb is_numeric_unit d = true ->
  match_magnitude d = Some (d, []).
Proof.
  intros Hd Hn. unfold match_magnitude.
  pose proof (span_app is_numeric_unit d [] Hn I) as E.
  rewrite app_nil_r in E. rewrite E.
  destruct d; [congruence|reflexivity].
Qed.

Lemma match_magnitude_suffixed (d ws : jsstring) (c : N) :
  d <> [] -> forallb is_numeric_unit d = true ->
  forallb is_space ws = true -> is_suffix_unit c = true ->
  match_magnitude (d ++ ws ++ [c]) = Some (d, [c]).
Proof.
  intros Hd Hn Hw Hc. unfold match_magnitude.
  rewrite (span_app is_numeric_unit d (ws ++ [c]) Hn).
  - rewrite (span_app is_space ws [c] Hw) by now apply suffix_not_space.
    rewrite Hc. destruct d; [congruence|reflexivity].
  - destruct ws as [|w ws]; simpl.
    + now apply suffix_not_numeric.
    + simpl in Hw. apply andb_prop in Hw as [Hw _]. now apply space_not_numeric.
Qed.

Lemma numeric_text_trimmed (d : jsstring) :
  forallb is_numeric_unit d = true -> trimmed d.
Proof.
  intros Hn. rewrite forallb_forall in Hn. split.
  - destruct d as [|c d]; trivial. apply numeric_not_space, Hn. now left.
  - destruct (rev d) as [|c r] eqn:E; trivial.
    apply numeric_not_space, Hn. apply in_rev. rewrite E. now left.
Qed.

Lemma scale_by_suffix (n : number) (c : N) :
  is_suffix_unit c = true ->
  (let suf := toLowerCase [c] in
   let n := if str_eqb suf (js "b") then mul n (of_Z 1000000000) else n in
   let n := if str_eqb suf (js "m") then mul n (of_Z 1000000) else n in
   let n := if str_eqb suf (js "t") then mul n (of_Z 1000000000000) else n in
   n) = mul n (suffix_factor c).
Proof.
  intros H.
  assert (E : c = 98%N \/ c = 66%N \/ c = 109%N \/ c = 77%N \/ c = 116%N \/ c = 84%N)
    by unit_classes.
  destruct E as [->|[->|[->|[->|[->| ->]]]]]; reflexivity.
Qed.

Lemma parseNumber_plain (d : jsstring) :
  d <> [] -> forallb is_numeric_unit d = true ->
  parseNumber (VStr d) = parseFloat d.
Proof.
  intros Hd Hn. unfold parseNumber.
  assert (T : ToBoolean (VStr d) = true) by (destruct d; [congruence|reflexivity]).
  rewrite T. cbn [negb andb ToString].
  rewrite magnitude_text_plain, (trim_id d) by
    (try (now apply numeric_text_trimmed);
     intros c Hc; left; rewrite forallb_forall in Hn; now apply Hn).
  now rewrite match_magnitude_plain.
Qed.

Lemma parseNumber_suffixed (d ws : jsstring) (c : N) :
  d <> [] -> forallb is_numeric_unit d = true ->
  forallb is_space ws = true -> is_suffix_unit c = true ->
  parseNumber (VStr (d ++ ws ++ [c])) = mul (parseFloat d) (suffix_factor c).
Proof.
  intros Hd Hn Hw Hc. unfold parseNumber.
  assert (T : ToBoolean (VStr (d ++ ws ++ [c])) = true)
    by (destruct d; [congruence|reflexivity]).
  rewrite T. cbn [negb andb ToString].
  rewrite magnitude_text_plain.
  - rewrite trim_id.
    + rewrite match_magnitude_suffixed by trivial. now apply scale_by_suffix.
    + split.
      * destruct d as [|x d]; [congruence|]. simpl.
        apply numeric_not_space. simpl in Hn. now apply andb_prop in Hn as [Hx _].
      * rewrite !rev_app_distr. simpl. now apply suffix_not_space.
  - intros x Hx. rewrite forallb_forall in Hn, Hw.
    apply in_app_or in Hx as [Hx|Hx]; [left; now apply Hn|].
    apply in_app_or in Hx as [Hx|[<-|[]]]; [right; left; now apply Hw|].
    right; right; exact Hc.
Qed.

(** X4: a text of digits, dots and dashes is read by [parseFloat]; followed
    by a suffix (after any white space) it is that number times [1e9] for b
    or B, [1e6] for m or M and [1e12] for t or T. *)
Theorem X4_parseNumber_magnitude (d ws : jsstring) (c : N) :
  d <> [] -> forallb is_numeric_unit d = true ->
  forallb is_space ws = true -> is_suffix_unit c = true ->
  parseNumber (VStr d) = parseFloat d /\
  parseNumber (VStr (d ++ ws ++ [c])) = mul (parseFloat d) (suffix_factor c).
Proof.
  intros Hd Hn Hw Hc. split.
  - now apply parseNumber_plain.
  - now apply parseNumber_suffixed.
Qed.

Lemma X4_parseNumber_magnitude_witness :
  js "-2.5" <> [] /\ forallb is_numeric_unit (js "-2.5") = true /\
  forallb is_space (js " ") = true /\ is_suffix_unit 109%N = true /\
  parseNumber (VStr (js "-2.5")) = num (-5) (-1) /\
  parseNumber (VStr (js "-2.5 m")) = of_Z (-2500000).
Proof.
  assert (H1 : js "-2.5" <> []) by discriminate.
  assert (H2 : forallb is_numeric_unit (js "-2.5") = true) by reflexivity.
  assert (H3 : forallb is_space (js " ") = true) by reflexivity.
  assert (H4 : is_suffix_unit 109%N = true) by reflexivity.
  do 4 (apply conj; [assumption|]). apply conj.
  - rewrite (proj1 (X4_parseNumber_magnitude _ _ _ H1 H2 H3 H4)).
    vm_compute. reflexivity.
  - change (js "-2.5 m") with (js "-2.5" ++ js " " ++ [109%N]).
    rewrite (proj2 (X4_parseNumber_magnitude _ _ _ H1 H2 H3 H4)).
    vm_compute. reflexivity.
Defined.

(** X5: the dollar signs and the commas of a text count for nothing,
    wherever they stand. *)
Theorem X5_parseNumber_ignores_currency (s : jsstring) :
  parseNumber (VStr s) = parseNumber (VStr (strip_currency s)).
Proof.
  destruct s as [|c s]; [reflexivity|].
  unfold parseNumber at 1. cbn [ToBoolean negb andb ToString].
  destruct (strip_currency (c :: s)) as [|c' s'] eqn:E.
  - vm_compute. reflexivity.
  - unfold parseNumber. cbn [ToBoolean negb andb ToString].
    now rewrite <- E, strip_currency_idem.
Qed.

Lemma parseNumber_falsy (v : value) :
  ToBoolean v = false -> parseNumber v = zero.
Proof.
  destruct v as [| |b|x|s]; simpl; intros H; trivial.
  - now subst b.
  - destruct x as [[]|?| |? ? ?]; try discriminate; vm_compute; reflexivity.
  - destruct s; [reflexivity|discriminate].
Qed.

Lemma parsePercent_falsy (v : value) :
  ToBoolean v = false -> parsePercent v = zero.
Proof.
  destruct v as [| |b|x|s]; simpl; intros H; trivial.
  - subst b. vm_compute. reflexivity.
  - destruct x as [[]|?| |? ? ?]; try discriminate; vm_compute; reflexivity.
  - destruct s; [reflexivity|discriminate].
Qed.

(** X6: every falsy cell (an absent one, [null], [false], the empty text,
    [NaN], and [0] of either sign) gives [0]. *)
Theorem X6_parseNumber_falsy_is_zero (v : value) :
  ToBoolean v = false -> parseNumber v = zero.
Proof. apply parseNumber_falsy. Qed.

Lemma X6_parseNumber_falsy_witness :
  ToBoolean (VNum (S754_zero true)) = false /\ parseNumber (VNum (S754_zero true)) = zero.
Proof.
  assert (H : ToBoolean (VNum (S754_zero true)) = false) by reflexivity.
  split; [exact H|]. exact (X6_parseNumber_falsy_is_zero _ H).
Defined.

Lemma shr_fexp_mantissa_nonneg (m e : Z) (l : location) :
  0 <= m -> 0 <= shr_m (fst (shr_fexp prec emax m e l)).
Proof.
  intros Hm. unfold shr_fexp, shr.
  assert (Hr : shr_m (shr_record_of_loc m l) = m) by (destruct l as [|[]]; reflexivity).
  destruct (fexp prec emax (Zdigits2 m + e) - e) as [|p|p]; simpl fst;
    rewrite ?Hr; try lia.
  rewrite iter_shr_1_mantissa by lia. rewrite Hr. apply Z.div_pos; lia.
Qed.

Lemma binary_round_aux_not_nan (s : bool) (m e : Z) (l : location) :
  0 <= m -> isNaN (binary_round_aux prec emax s m e l) = false.
Proof.
  intros Hm. unfold binary_round_aux.
  pose proof (shr_fexp_mantissa_nonneg m e l Hm) as M1.
  destruct (shr_fexp prec emax m e l) as [r1 e1]. simpl in M1.
  assert (M1' : 0 <= round_nearest_even (shr_m r1) (loc_of_shr_record r1)).
  { destruct (loc_of_shr_record r1) as [|[]]; simpl; try lia.
    destruct (Z.even (shr_m r1)); lia. }
  pose proof (shr_fexp_mantissa_nonneg _ e1 loc_Exact M1') as M2.
  destruct (shr_fexp prec emax _ e1 loc_Exact) as [r2 e2]. simpl in M2.
  destruct (shr_m r2); try lia; trivial.
  destruct (e2 <=? emax - prec); reflexivity.
Qed.

Lemma mul_finite_not_nan (n : number) (s : bool) (m : positive) (e : Z) :
  isNaN n = false -> isNaN (mul n (S754_finite s m e)) = false.
Proof.
  destruct n as [sn|sn| |sn mn en]; simpl; trivial.
  intros _. now apply binary_round_aux_not_nan.
Qed.

Lemma mul_factor_not_nan (n : number) (c : N) :
  isNaN n = false -> isNaN (mul n (suffix_factor c)) = false.
Proof.
  intros H. unfold suffix_factor.
  destruct ((c =? 98) || (c =? 66))%N; [|destruct ((c =? 109) || (c =? 77))%N];
    now apply mul_finite_not_nan.
Qed.

Lemma or_zero_not_nan (x : number) : isNaN (or_zero x) = false.
Proof. destruct x; reflexivity. Qed.

Lemma match_magnitude_groups (s g1 g2 : jsstring) :
  match_magnitude s = Some (g1, g2) ->
  forallb is_numeric_unit g1 = true /\
  (g2 = [] \/ exists c, g2 = [c] /\ is_suffix_unit c = true).
Proof.
  unfold match_magnitude.
  pose proof (span_forallb is_numeric_unit s) as F.
  destruct (span is_numeric_unit s) as [a r1]. simpl in F.
  destruct a as [|x a]; [discriminate|].
  destruct (span is_space r1) as [w r2].
  destruct r2 as [|c [|? ?]]; try discriminate.
  - intros E. injection E as <- <-. split; [exact F|now left].
  - destruct (is_suffix_unit c) eqn:S; [|discriminate].
    intros E. injection E as <- <-. split; [exact F|]. right. eauto.
Qed.

(** X7: [parseNumber] returns [NaN] only for a text that, stripped and
    trimmed, is a run of digits, dots and dashes with at most a suffix
    after it, and in whose run [parseFloat] reads no number.  Every other
    cell gives a number. *)
Theorem X7_parseNumber_NaN_only_from_pattern (v : value) :
  isNaN (parseNumber v) = true ->
  exists g1 g2 : jsstring,
    match_magnitude (trim (strip_currency (ToString v))) = Some (g1, g2) /\
    forallb is_numeric_unit g1 = true /\
    isNaN (parseFloat g1) = true.
Proof.
  unfold parseNumber.
  destruct (negb (ToBoolean v) && negb (is_number_zero v)); [discriminate|].
  destruct (match_magnitude (trim (strip_currency (ToString v))))
    as [[g1 g2]|] eqn:M.
  - intros H. exists g1, g2. split; [reflexivity|].
    destruct (match_magnitude_groups _ _ _ M) as [F G]. split; [exact F|].
    destruct (isNaN (parseFloat g1)) eqn:E; trivial. exfalso.
    destruct G as [->|[c [-> S]]].
    + simpl in H. congruence.
    + pose proof (scale_by_suffix (parseFloat g1) c S) as Q.
      cbv zeta in Q, H. rewrite Q, mul_factor_not_nan in H by trivial.
      discriminate.
  - rewrite or_zero_not_nan. discriminate.
Qed.

Lemma X7_parseNumber_NaN_witness :
  isNaN (parseNumber (text "-.")) = true /\
  exists g1 g2 : jsstring,
    match_magnitude (trim (strip_currency (ToString (text "-.")))) = Some (g1, g2) /\
    forallb is_numeric_unit g1 = true /\
    isNaN (parseFloat g1) = true.
Proof.
  assert (H : isNaN (parseNumber (text "-.")) = true) by reflexivity.
  split; [exact H|]. exact (X7_parseNumber_NaN_only_from_pattern _ H).
Defined.

(** X8: on a text of digits, dots and dashes the two coercions read the
    same number, except that [parsePercent] gives [0] where [parseNumber]
    gives [NaN]. *)
Theorem X8_parsePercent_agrees_with_parseNumber (d : jsstring) :
  d <> [] -> forallb is_numeric_unit d = true ->
  parsePercent (VStr d)
  = let n := parseNumber (VStr d) in if isNaN n then zero else n.
Proof.
  intros Hd Hn. rewrite parseNumber_plain by trivial.
  unfold parsePercent. destruct d as [|c d]; [congruence|].
  cbn [ToString]. rewrite remove_first_absent.
  - now rewrite trim_id by now apply numeric_text_trimmed.
  - intros H. rewrite forallb_forall in Hn. specialize (Hn _ H). unit_classes.
Qed.

Lemma X8_parsePercent_agrees_witness :
  js "1.5" <> [] /\ forallb is_numeric_unit (js "1.5") = true /\
  parsePercent (VStr (js "1.5")) = parseNumber (VStr (js "1.5")).
Proof.
  assert (H1 : js "1.5" <> []) by discriminate.
  assert (H2 : forallb is_numeric_unit (js "1.5") = true) by reflexivity.
  do 2 (apply conj; [assumption|]).
  rewrite (X8_parsePercent_agrees_with_parseNumber _ H1 H2).
  vm_compute. reflexivity.
Defined.

(** ** More on the records and the entries *)

Lemma parseValues_record (header_row : list value) (data_rows : list (list value))
    (obj : gmap jsstring value) :
  In obj (parseValues (Some (header_row :: data_rows))) ->
  exists r, In r data_rows /\
    obj = assign_cells (map (fun h => trim (ToString h)) header_row) r 0 true ∅.
Proof.
  simpl. intros H. apply in_map_iff in H as [r [<- Hr]]. eauto.
Qed.

(** X9: no key of a record begins or ends with white space: the header
    names are trimmed, so a header typed with spaces around it still names
    its column. *)
Theorem X9_record_keys_trimmed (header_row : list value)
    (data_rows : list (list value)) (obj : gmap jsstring value) (k : jsstring) :
  In obj (parseValues (Some (header_row :: data_rows))) ->
  is_Some (obj !! k) ->
  trimmed k.
Proof.
  intros Hobj Hk. apply parseValues_record in Hobj as [r [_ ->]].
  apply assign_cells_keys in Hk as [Hk|[x Hx]].
  - apply in_map_iff in Hk as [h [<- _]]. apply trim_trimmed.
  - rewrite lookup_empty in Hx. discriminate.
Qed.

Lemma X9_record_keys_trimmed_witness :
  exists obj : gmap jsstring value,
    In obj (parseValues ragged_grid) /\
    is_Some (obj !! js "Company name") /\
    trimmed (js "Company name").
Proof.
  exists (assign_cells [js "Company name"; js "Symbol"] [text "Acme"] 0 true ∅).
  assert (H1 : In (assign_cells [js "Company name"; js "Symbol"] [text "Acme"] 0 true ∅)
                  (parseValues ragged_grid)) by (left; reflexivity).
  assert (H2 : is_Some (assign_cells [js "Company name"; js "Symbol"] [text "Acme"] 0 true ∅
                        !! js "Company name")) by (eexists; reflexivity).
  do 2 (apply conj; [assumption|]).
  exact (X9_record_keys_trimmed _ _ _ _ H1 H2).
Defined.

Lemma absent_column_undefined (headers : list jsstring) (r : list value) (k : jsstring) :
  ~ In k headers -> get (assign_cells headers r 0 true ∅) k = VUndefined.
Proof.
  intros H. unfold get. rewrite assign_cells_other.
  - now rewrite lookup_empty.
  - intros j Hj. apply H. apply list_elem_of_In. eapply list_elem_of_lookup_2. exact Hj.
Qed.

(** X10: when the header row names none of the columns the chart reads,
    every row of the sheet becomes the same entry: the name "—", the
    numbers [0], the sector "Other", an empty revenue stream and debt
    reduced "Unknown". *)
Theorem X10_unknown_headers_give_default_entries (header_row : list value)
    (data_rows : list (list value)) (e : entry) :
  (forall k, In k expected_columns ->
             ~ In k (map (fun h => trim (ToString h)) header_row)) ->
  In e (chartData (parseValues (Some (header_row :: data_rows)))) ->
  e = default_entry.
Proof.
  intros Hk He. unfold chartData in He.
  apply in_map_iff in He as [obj [<- Hobj]].
  apply parseValues_record in Hobj as [r [_ ->]].
  assert (G : forall k, In k expected_columns ->
                        get (assign_cells (map (fun h => trim (ToString h)) header_row) r 0 true ∅) k
                        = VUndefined).
  { intros k Hin. apply absent_column_undefined. now apply Hk. }
  unfold chart_entry.
  rewrite !G by (unfold expected_columns; simpl; tauto).
  reflexivity.
Qed.

Lemma X10_unknown_headers_witness :
  (forall k, In k expected_columns ->
             ~ In k (map (fun h => trim (ToString h)) [text "Ticker"; text "Price"])) /\
  In default_entry
     (chartData (parseValues (Some [[text "Ticker"; text "Price"]; [text "ACM"; text "12"]]))) /\
  chartData (parseValues (Some [[text "Ticker"; text "Price"]; [text "ACM"; text "12"]]))
  = [default_entry].
Proof.
  assert (H1 : forall k, In k expected_columns ->
             ~ In k (map (fun h => trim (ToString h)) [text "Ticker"; text "Price"])).
  { intros k Hk Hin. vm_compute in Hk, Hin.
    repeat (destruct Hk as [<-|Hk]; [intuition discriminate|]). exact Hk. }
  set (l := chartData (parseValues (Some [[text "Ticker"; text "Price"]; [text "ACM"; text "12"]]))).
  assert (E : exists e, l = [e]) by (eexists; reflexivity).
  destruct E as [e E].
  assert (He : In e l) by (rewrite E; now left).
  pose proof (X10_unknown_headers_give_default_entries _ _ e H1 He) as D.
  subst e. split; [exact H1|]. split; [exact He|exact E].
Defined.

(** X23: a record in which every column the chart reads is falsy (absent,
    empty, [null], [false], [0] or [NaN]) gives the default entry, so a
    blank row of the sheet shows as "—" with zeros. *)
Theorem X23_blank_record_gives_default_entry (r : gmap jsstring value) :
  (forall k, In k expected_columns -> ToBoolean (get r k) = false) ->
  chart_entry r = default_entry.
Proof.
  intros H. unfold chart_entry, default_entry, or_else, normalizeYesNo.
  rewrite !parseNumber_falsy, !parsePercent_falsy, !H
    by (try apply H; unfold expected_columns; simpl; tauto).
  reflexivity.
Qed.

Lemma X23_blank_record_witness :
  (forall k, In k expected_columns ->
             ToBoolean (get ({[ js "Market cap" := VStr [] ]} : gmap jsstring value) k) = false) /\
  chart_entry {[ js "Market cap" := VStr [] ]} = default_entry.
Proof.
  assert (H : forall k, In k expected_columns ->
             ToBoolean (get ({[ js "Market cap" := VStr [] ]} : gmap jsstring value) k) = false).
  { intros k Hk. vm_compute in Hk.
    repeat (destruct Hk as [<-|Hk]; [vm_compute; reflexivity|]). destruct Hk. }
  split; [exact H|]. exact (X23_blank_record_gives_default_entry _ H).
Defined.

(** X11: the count of [totals] over the entries of a grid is the number
    of its rows less the header row, and [0] for an absent or empty
    grid. *)
Theorem X11_count_is_data_rows (values : option (list (list value))) :
  count (totals (chartData (parseValues values)))
  = match values with
    | None => 0%nat
    | Some grid => (length grid - 1)%nat
    end.
Proof.
  destruct values as [[|h data]|]; trivial.
  unfold totals; cbn [count]. unfold chartData, parseValues.
  rewrite !length_map. simpl. lia.
Qed.

(** X12: the name and the sector of an entry are never empty: each is a
    truthy value, whatever the record holds. *)
Theorem X12_name_and_sector_never_empty (r : gmap jsstring value) :
  ToBoolean (name (chart_entry r)) = true /\
  ToBoolean (sector (chart_entry r)) = true.
Proof.
  unfold chart_entry, or_else; simpl name; simpl sector. split.
  - destruct (ToBoolean (get r (js "Company name"))) eqn:E1; trivial.
    destruct (ToBoolean (get r (js "Company Name"))) eqn:E2; trivial.
    destruct (ToBoolean (get r (js "Name"))) eqn:E3; trivial.
    destruct (ToBoolean (get r (js "company"))) eqn:E4; trivial.
  - destruct (ToBoolean (get r (js "Which Sector this Company"))) eqn:E1; trivial.
    destruct (ToBoolean (get r (js "Sector"))) eqn:E2; trivial.
Qed.

(** X13: the company cell of the table and the name of the chart entry
    are the same value whenever the cell is not empty; when it is empty
    the chart still names the row, by its "company" column or by "—". *)
Theorem X13_table_and_chart_names (r : gmap jsstring value) :
  name (chart_entry r)
  = if ToBoolean (table_company r) then table_company r
    else or_else (get r (js "company")) (VStr EM_DASH).
Proof.
  unfold chart_entry, table_company, or_else; simpl name.
  destruct (ToBoolean (get r (js "Company name"))) eqn:E1; [now rewrite E1|].
  destruct (ToBoolean (get r (js "Company Name"))) eqn:E2; [now rewrite E2|].
  destruct (ToBoolean (get r (js "Name"))) eqn:E3; rewrite ?E3; reflexivity.
Qed.

(** ** The tally of the sectors *)

Lemma str_eqb_refl (a : jsstring) : str_eqb a a = true.
Proof. now apply str_eqb_eq. Qed.

Lemma str_eqb_sym (a b : jsstring) : str_eqb a b = str_eqb b a.
Proof.
  destruct (str_eqb a b) eqn:E1, (str_eqb b a) eqn:E2; trivial.
  - apply str_eqb_eq in E1. subst b. now rewrite str_eqb_refl in E2.
  - apply str_eqb_eq in E2. subst b. now rewrite str_eqb_refl in E1.
Qed.

Lemma tally_has_In (k : jsstring) (t : list (jsstring * tally_value)) :
  tally_has k t = true <-> In k (map fst t).
Proof.
  induction t as [|[k0 c] t IH]; simpl.
  - split; [discriminate|tauto].
  - rewrite orb_true_iff, IH, str_eqb_eq. split; intros [H|H]; auto.
Qed.

Lemma tally_get_absent (k : jsstring) (t : list (jsstring * tally_value)) :
  tally_has k t = false -> tally_get k t = 0%nat.
Proof.
  induction t as [|[k0 c] t IH]; simpl; trivial.
  intros H. apply orb_false_iff in H as [E H]. rewrite E. now apply IH.
Qed.

(** A label that is no name of [Object.prototype] is counted: the counter
    that is there goes up, and a label that is not there comes in with the
    counter [1]. *)
Lemma bump_counts (k : jsstring) (t : list (jsstring * tally_value)) :
  ~ In k prototype_names ->
  bump k t = if tally_has k t then tally_increment k t
             else tally_add k (Counter 1) t.
Proof.
  intros H. unfold bump. destruct (tally_has k t); trivial.
  rewrite (str_eqb_neq k PROTO).
  - destruct (inherited k) eqn:E; trivial. exfalso. apply H.
    unfold inherited in E. apply existsb_exists in E as [x [Hx E]].
    apply str_eqb_eq in E. now subst x.
  - intros ->. apply H. unfold prototype_names. simpl.
    do 10 right. left. reflexivity.
Qed.

Lemma tally_total_increment (k : jsstring) (t : list (jsstring * tally_value)) :
  Forall positive_counter t ->
  tally_has k t = true -> tally_total (tally_increment k t) = S (tally_total t).
Proof.
  induction 1 as [|[k0 v] t [c Hc] Ht IH]; simpl; intros H; [discriminate|].
  simpl in Hc. subst v.
  destruct (str_eqb k k0); simpl; [reflexivity|].
  simpl in H. rewrite IH by exact H. lia.
Qed.

Lemma tally_keys_increment (k : jsstring) (t : list (jsstring * tally_value)) :
  map fst (tally_increment k t) = map fst t.
Proof.
  induction t as [|[k0 c] t IH]; simpl; trivial.
  destruct (str_eqb k k0); simpl; congruence.
Qed.

Lemma tally_get_increment (k k' : jsstring) (t : list (jsstring * tally_value)) :
  Forall positive_counter t ->
  tally_has k t = true ->
  tally_get k' (tally_increment k t)
  = ((if str_eqb k k' then 1 else 0) + tally_get k' t)%nat.
Proof.
  induction 1 as [|[k0 v] t [c Hc] Ht IH]; simpl; intros H; [discriminate|].
  simpl in Hc. subst v.
  destruct (str_eqb k k0) eqn:E; simpl.
  - apply str_eqb_eq in E. subst k0. rewrite (str_eqb_sym k' k).
    destruct (str_eqb k k'); reflexivity.
  - simpl in H. destruct (str_eqb k' k0) eqn:E0; [|now apply IH].
    apply str_eqb_eq in E0. subst k0. now rewrite E.
Qed.

Lemma tally_positive_increment (k : jsstring) (t : list (jsstring * tally_value)) :
  Forall positive_counter t -> Forall positive_counter (tally_increment k t).
Proof.
  induction 1 as [|[k0 v] t [c Hc] Ht IH]; simpl; [constructor|].
  simpl in Hc. subst v.
  destruct (str_eqb k k0); constructor; trivial; now eexists.
Qed.

Lemma tally_total_add (k : jsstring) (t : list (jsstring * tally_value)) :
  tally_total (tally_add k (Counter 1) t) = S (tally_total t).
Proof.
  induction t as [|[k0 c] t IH]; simpl; trivial.
  destruct (key_before k k0); simpl; [reflexivity|]. rewrite IH. lia.
Qed.

Lemma tally_keys_add (k k' : jsstring) (v : tally_value)
    (t : list (jsstring * tally_value)) :
  In k' (map fst (tally_add k v t)) <-> k' = k \/ In k' (map fst t).
Proof.
  induction t as [|[k0 c] t IH]; simpl.
  - intuition congruence.
  - destruct (key_before k k0); simpl.
    + intuition congruence.
    + rewrite IH. intuition congruence.
Qed.

Lemma tally_NoDup_add (k : jsstring) (v : tally_value)
    (t : list (jsstring * tally_value)) :
  ~ In k (map fst t) -> NoDup (map fst t) -> NoDup (map fst (tally_add k v t)).
Proof.
  induction t as [|[k0 c] t IH]; simpl; intros Hn Hd.
  - apply NoDup_singleton.
  - destruct (key_before k k0); simpl.
    + apply NoDup_cons. split; [|exact Hd].
      rewrite list_elem_of_In. exact Hn.
    + apply NoDup_cons in Hd as [H1 H2]. apply NoDup_cons. split.
      * rewrite list_elem_of_In, tally_keys_add. intros [->|Hin].
        -- apply Hn. now left.
        -- apply H1. now apply list_elem_of_In.
      * apply IH; tauto.
Qed.

Lemma tally_get_add (k k' : jsstring) (t : list (jsstring * tally_value)) :
  tally_has k t = false ->
  tally_get k' (tally_add k (Counter 1) t)
  = ((if str_eqb k k' then 1 else 0) + tally_get k' t)%nat.
Proof.
  induction t as [|[k0 c] t IH]; simpl; intros H.
  - rewrite (str_eqb_sym k' k). destruct (str_eqb k k'); reflexivity.
  - apply orb_false_iff in H as [E H]. destruct (key_before k k0); simpl.
    + rewrite (str_eqb_sym k' k). destruct (str_eqb k k') eqn:E1; [|reflexivity].
      apply str_eqb_eq in E1. subst k'. rewrite E.
      now rewrite tally_get_absent.
    + destruct (str_eqb k' k0) eqn:E0; [|now apply IH].
      apply str_eqb_eq in E0. subst k0. now rewrite E.
Qed.

Lemma tally_positive_add (k : jsstring) (t : list (jsstring * tally_value)) :
  Forall positive_counter t -> Forall positive_counter (tally_add k (Counter 1) t).
Proof.
  induction 1 as [|[k0 c] t Hc Ht IH]; simpl.
  - repeat constructor. now eexists.
  - destruct (key_before k k0).
    + constructor; [now eexists|]. now constructor.
    + now constructor.
Qed.

Section Bump.
Variables (k : jsstring) (t : list (jsstring * tally_value)).
Hypothesis not_inherited : ~ In k prototype_names.
Hypothesis counters : Forall positive_counter t.

Lemma tally_total_bump : tally_total (bump k t) = S (tally_total t).
Proof.
  rewrite bump_counts by trivial. destruct (tally_has k t) eqn:E.
  - now apply tally_total_increment.
  - apply tally_total_add.
Qed.

Lemma tally_keys_bump (k' : jsstring) :
  In k' (map fst (bump k t)) <-> k' = k \/ In k' (map fst t).
Proof.
  rewrite bump_counts by trivial. destruct (tally_has k t) eqn:E.
  - rewrite tally_keys_increment. apply tally_has_In in E.
    split; [tauto|]. now intros [->|H].
  - apply tally_keys_add.
Qed.

Lemma tally_NoDup_bump : NoDup (map fst t) -> NoDup (map fst (bump k t)).
Proof.
  intros H. rewrite bump_counts by trivial. destruct (tally_has k t) eqn:E.
  - now rewrite tally_keys_increment.
  - apply tally_NoDup_add; trivial.
    intros C. apply tally_has_In in C. congruence.
Qed.

Lemma tally_get_bump (k' : jsstring) :
  tally_get k' (bump k t)
  = ((if str_eqb k k' then 1 else 0) + tally_get k' t)%nat.
Proof.
  rewrite bump_counts by trivial. destruct (tally_has k t) eqn:E.
  - now apply tally_get_increment.
  - now apply tally_get_add.
Qed.

Lemma tally_positive_bump : Forall positive_counter (bump k t).
Proof.
  rewrite bump_counts by trivial. destruct (tally_has k t).
  - now apply tally_positive_increment.
  - now apply tally_positive_add.
Qed.
End Bump.

Lemma tally_fold (l : list entry) :
  Forall (fun d => ~ In (ToString (sector d)) prototype_names) l ->
  forall t : list (jsstring * tally_value),
    Forall positive_counter t ->
    let t' := fold_left (fun acc d => bump (ToString (sector d)) acc) l t in
    tally_total t' = (length l + tally_total t)%nat /\
    (NoDup (map fst t) -> NoDup (map fst t')) /\
    Forall positive_counter t' /\
    (forall k, In k (map fst t') <->
               In k (map fst t) \/ exists d, In d l /\ ToString (sector d) = k) /\
    (forall k, tally_get k t' = (tally_get k t + length (in_sector k l))%nat).
Proof.
  induction 1 as [|d l Hd Hl IH]; intros t Ht; simpl.
  - repeat split; trivial; try lia.
    + intros H. now left.
    + intros [H|[d [[] _]]]. exact H.
  - destruct (IH (bump (ToString (sector d)) t)) as (T & N & Z & K & G).
    { now apply tally_positive_bump. }
    repeat split.
    + rewrite T, tally_total_bump by trivial. lia.
    + intros H. now apply N, tally_NoDup_bump.
    + exact Z.
    + intros H. apply K in H as [H|[d' [Hd' E]]].
      * apply tally_keys_bump in H as [->|H]; trivial;
          [right; exists d; auto|now left].
      * right. exists d'. auto.
    + intros [H|[d' [[<-|Hd'] E]]]; apply K.
      * left. apply tally_keys_bump; trivial. now right.
      * left. apply tally_keys_bump; trivial. now left.
      * right. eauto.
    + intros k. rewrite G, tally_get_bump by trivial. unfold in_sector. simpl.
      destruct (str_eqb (ToString (sector d)) k); simpl; lia.
Qed.

(** X14: when no sector label is the name of a property of
    [Object.prototype], the counters of the sector tally add up to the
    number of entries: every entry is counted once. *)
Theorem X14_sector_counts_sum_to_count (l : list entry) :
  Forall (fun d => ~ In (ToString (sector d)) prototype_names) l ->
  tally_total (sectors (totals l)) = count (totals l).
Proof.
  intros H.
  destruct (tally_fold l H []) as (T & _); [constructor|]. simpl in T.
  unfold totals; cbn [sectors count]. rewrite T. lia.
Qed.

Lemma X14_sector_counts_witness :
  let l := chartData (parseValues scenario_grid) in
  Forall (fun d => ~ In (ToString (sector d)) prototype_names) l /\
  tally_total (sectors (totals l)) = 2%nat.
Proof.
  intros l.
  assert (H : Forall (fun d => ~ In (ToString (sector d)) prototype_names) l).
  { repeat constructor; vm_compute; intuition discriminate. }
  split; [exact H|].
  rewrite (X14_sector_counts_sum_to_count l H). vm_compute. reflexivity.
Defined.

(** X15: when no sector label is the name of a property of
    [Object.prototype], the tally lists each sector label of the entries
    once and no other label, every property of the tally is a counter that
    is not [0], and the counter under a label is the number of entries of
    that sector. *)
Theorem X15_sector_tally_counts_entries (l : list entry) :
  Forall (fun d => ~ In (ToString (sector d)) prototype_names) l ->
  let t := sectors (totals l) in
  NoDup (map fst t) /\
  (forall k, In k (map fst t) <-> exists d, In d l /\ ToString (sector d) = k) /\
  (forall k, tally_get k t = length (in_sector k l)) /\
  Forall positive_counter t.
Proof.
  intros H.
  destruct (tally_fold l H []) as (_ & N & Z & K & G); [constructor|].
  unfold totals; cbn [sectors]. repeat split.
  - apply N. apply NoDup_nil_2.
  - intros I. apply K in I as [[]|I]. exact I.
  - intros I. apply K. now right.
  - intros k. now rewrite G.
  - exact Z.
Qed.

Lemma X15_sector_tally_witness :
  let l := chartData (parseValues scenario_grid) in
  Forall (fun d => ~ In (ToString (sector d)) prototype_names) l /\
  tally_get (js "Other") (sectors (totals l)) = 2%nat.
Proof.
  intros l.
  assert (H : Forall (fun d => ~ In (ToString (sector d)) prototype_names) l).
  { repeat constructor; vm_compute; intuition discriminate. }
  split; [exact H|].
  destruct (X15_sector_tally_counts_entries l H) as (_ & _ & G & _).
  rewrite G. vm_compute. reflexivity.
Defined.

(** ** More on the top of the list *)

Lemma chartData_margins_proper (data : list (gmap jsstring value)) :
  Forall (fun e => proper (marginExpansion e)) (chartData data).
Proof.
  eapply Forall_impl; [apply chartData_proper|]. intros e H. apply H.
Qed.

Lemma sorted_app_dominates (l1 l2 : list entry) :
  StronglySorted margin_ge (l1 ++ l2) ->
  forall a b, In a l1 -> In b l2 -> margin_ge a b.
Proof.
  induction l1 as [|x l1 IH]; simpl; intros S a b Ha Hb; [contradiction|].
  apply StronglySorted_inv in S as [S F].
  destruct Ha as [<-|Ha]; [|now apply (IH S a b)].
  rewrite List.Forall_forall in F. apply F. apply in_or_app. now right.
Qed.

Lemma Array_sort_idempotent (l : list entry) :
  Forall (fun e => proper (marginExpansion e)) l ->
  Array_sort by_margin (Array_sort by_margin l) = Array_sort by_margin l.
Proof.
  intros P.
  assert (P' : Forall (fun e => proper (marginExpansion e)) (Array_sort by_margin l))
    by (eapply Permutation_Forall; [symmetry; apply Array_sort_perm|exact P]).
  apply (proj2 (sort_keeps_sorted_only _ P')). now apply Array_sort_descending.
Qed.

(** X16: on the entries of any two records the comparator is positive
    exactly when the first margin expansion is the smaller one and
    negative exactly when it is the larger one; rounding or underflow in
    the subtraction never hides or turns a difference. *)
Theorem X16_comparator_follows_margins (r1 r2 : gmap jsstring value) :
  let a := chart_entry r1 in
  let b := chart_entry r2 in
  is_positive (by_margin a b) = num_ltb (marginExpansion a) (marginExpansion b) /\
  is_negative (by_margin a b) = num_ltb (marginExpansion b) (marginExpansion a).
Proof.
  intros a b.
  pose proof (chart_entry_proper r1) as (_ & _ & Pa).
  pose proof (chart_entry_proper r2) as (_ & _ & Pb).
  split; [now apply by_margin_positive|now apply by_margin_negative].
Qed.

(** X17: the list shown holds five entries, or all of them when there are
    fewer than five. *)
Theorem X17_top5_length (l : list entry) :
  length (fst (marginTop5 l)) = Nat.min 5 (length l).
Proof.
  simpl fst. rewrite length_take.
  now rewrite (Permutation_length (Array_sort_perm by_margin l)).
Qed.

(** X18: no entry left out of the list shown has a larger margin
    expansion than an entry in it. *)
Theorem X18_top5_dominates_rest (data : list (gmap jsstring value)) (a b : entry) :
  let entries := chartData data in
  In a (fst (marginTop5 entries)) ->
  In b (drop 5 (snd (marginTop5 entries))) ->
  num_ltb (marginExpansion a) (marginExpansion b) = false.
Proof.
  intros entries Ha Hb. simpl in Ha, Hb.
  apply (sorted_app_dominates (take 5 (Array_sort by_margin entries))
                              (drop 5 (Array_sort by_margin entries))); trivial.
  rewrite take_drop. apply Array_sort_descending, chartData_margins_proper.
Qed.

Lemma X18_top5_dominates_witness :
  let entries := chartData (parseValues six_grid) in
  In (nth 5 entries default_entry) (fst (marginTop5 entries)) /\
  In (nth 0 entries default_entry) (drop 5 (snd (marginTop5 entries))) /\
  num_ltb (marginExpansion (nth 5 entries default_entry))
          (marginExpansion (nth 0 entries default_entry)) = false.
Proof.
  intros entries.
  assert (Ha : In (nth 5 entries default_entry) (fst (marginTop5 entries)))
    by (vm_compute; left; reflexivity).
  assert (Hb : In (nth 0 entries default_entry) (drop 5 (snd (marginTop5 entries))))
    by (vm_compute; left; reflexivity).
  do 2 (apply conj; [assumption|]).
  exact (X18_top5_dominates_rest (parseValues six_grid) _ _ Ha Hb).
Defined.

(** X19: drawing the list a second time changes nothing: on the array the
    first render left behind, the sort returns the same list and leaves
    the array as it is. *)
Theorem X19_second_render_is_stable (data : list (gmap jsstring value)) :
  let entries := chartData data in
  marginTop5 (snd (marginTop5 entries)) = marginTop5 entries.
Proof.
  intros entries. unfold marginTop5, sort_and_slice. simpl snd.
  now rewrite Array_sort_idempotent by apply chartData_margins_proper.
Qed.

(** X20: the render leaves [chartData] in its order exactly when the
    entries were in descending order of margin expansion already. *)
Theorem X20_sort_changes_unsorted_only (data : list (gmap jsstring value)) :
  snd (marginTop5 (chartData data)) = chartData data
  <-> StronglySorted margin_ge (chartData data).
Proof. apply sort_keeps_sorted_only, chartData_margins_proper. Qed.

(** ** [fetchSheet] *)

Lemma error_text_nonempty (e : exception) :
  exn_name e <> [] -> error_text e <> [].
Proof.
  unfold error_text, ErrorToString. intros H.
  destruct (exn_message e) as [|c m]; [|discriminate].
  destruct (exn_name e); [congruence|discriminate].
Qed.

Lemma fetch_rows (os : list outcome) :
  forall st, rows (fold_left fetchSheet os st) = rows_after (rows st) os.
Proof.
  induction os as [|o os IH]; intros st; simpl; trivial.
  rewrite IH. destruct o; reflexivity.
Qed.

(** X21: a call that fails keeps the rows that were there, ends with
    [loading] off and leaves an error text that is not empty, so the error
    banner shows. *)
Theorem X21_failed_fetch_keeps_rows (st : state) (o : outcome) :
  failed o ->
  let st' := fetchSheet st o in
  rows st' = rows st /\
  loading st' = false /\
  exists msg, error st' = Some msg /\ msg <> [].
Proof.
  intros H st'. destruct o as [v|body|e]; [contradiction| |]; simpl.
  - repeat split. eexists. split; [reflexivity|].
    now apply error_text_nonempty.
  - repeat split. eexists. split; [reflexivity|].
    now apply error_text_nonempty.
Qed.

Lemma X21_failed_fetch_witness :
  failed (NotOk []) /\
  rows (fetchSheet {| rows := parseValues scenario_grid; loading := false; error := None |}
          (NotOk []))
  = parseValues scenario_grid /\
  error (fetchSheet {| rows := parseValues scenario_grid; loading := false; error := None |}
           (NotOk []))
  = Some (js "Error").
Proof.
  assert (H : failed (NotOk [])) by exact I.
  split; [exact H|].
  destruct (X21_failed_fetch_keeps_rows
              {| rows := parseValues scenario_grid; loading := false; error := None |}
              (NotOk []) H) as (R & _ & _).
  split; [exact R|reflexivity].
Defined.

(** X22: after any run of calls, one at a time, the rows are those of the
    last call that resolved (the rows before the run when none did),
    [loading] is off, and there is an error exactly when the last call
    failed. *)
Theorem X22_rows_of_last_good_fetch (st : state) (os : list outcome) (o : outcome) :
  let st' := fold_left fetchSheet (os ++ [o]) st in
  rows st' = rows_after (rows st) (os ++ [o]) /\
  loading st' = false /\
  (error st' = None <-> exists values, o = Resolved values).
Proof.
  intros st'. split; [apply fetch_rows|].
  unfold st'. rewrite fold_left_app. simpl.
  destruct o as [v|body|e]; simpl; split; trivial; split.
  - eauto.
  - trivial.
  - discriminate.
  - intros [v E]. discriminate.
  - discriminate.
  - intros [v E]. discriminate.
Qed.
